(** * core-suggest: a model of the suggest widget and its behaviour contract

    The development embeds [packages/core-suggest/core-suggest.js]:
    strings as [string], the widget's subtree as a rose tree of element and
    text nodes whose elements carry an identity, the element attributes as
    finite maps, and the handlers as functions on an explicit browser state
    (timers, request objects, document listeners, dispatched notifications). *)

From Stdlib Require Import String Ascii DecimalString DecimalNat Sorted.
From stdpp Require Import gmap strings list.

(** ** Strings *)

Module Str.

(** [String.prototype.toLowerCase], on the ASCII letters. *)
Definition lower_ascii (c : ascii) : ascii :=
  let n := nat_of_ascii c in
  if ((65 <=? n) && (n <=? 90))%nat then ascii_of_nat (n + 32) else c.

Fixpoint toLowerCase (s : string) : string :=
  match s with
  | EmptyString => EmptyString
  | String c r => String (lower_ascii c) (toLowerCase r)
  end.

(** [String.prototype.trim], with the ASCII white space of [Ascii.is_space]. *)
Fixpoint trimStart (s : string) : string :=
  match s with
  | EmptyString => EmptyString
  | String c r => if Ascii.is_space c then trimStart r else s
  end.

Fixpoint trimEnd (s : string) : string :=
  match s with
  | EmptyString => EmptyString
  | String c r =>
      match trimEnd r with
      | EmptyString => if Ascii.is_space c then EmptyString else String c EmptyString
      | r' => String c r'
      end
  end.

Definition trim (s : string) : string := trimEnd (trimStart s).

(** JavaScript truthiness of a string: [""] is falsy. *)
Definition truthy (s : string) : bool :=
  match s with EmptyString => false | _ => true end.

(** [s.slice(a, b)] for [0 <= a <= b]. *)
Definition slice (a b : nat) (s : string) : string := substring a (b - a) s.

(** [haystack.indexOf(needle, start)], [None] standing for [-1]. *)
Definition indexOf (haystack needle : string) (start : nat) : option nat :=
  index start needle haystack.

(** [haystack.indexOf(needle) !== -1] *)
Definition includes (haystack needle : string) : bool :=
  match indexOf haystack needle 0 with Some _ => true | None => false end.

(** Decimal rendering of a number in a template literal. *)
Definition of_nat (n : nat) : string := NilEmpty.string_of_uint (Nat.to_uint n).

Fixpoint concat (l : list string) : string :=
  match l with
  | [] => EmptyString
  | s :: r => s +:+ concat r
  end.

End Str.

(** ** The document tree *)

Module Dom.

(** An element: its identity (the object reference the code holds on to),
    its lower-case local name and its content attributes. *)
Record element : Type := mkElement {
  id : nat;
  tag : string;
  attrs : gmap string string
}.

#[local] Unset Elimination Schemes.
Inductive node : Type :=
| Text (data : string)
| Elem (e : element) (kids : list node).
#[local] Set Elimination Schemes.

(** Induction over a tree whose children sit in a list. *)
Section node_induction.
Variable P : node -> Prop.
Hypothesis P_text : forall s, P (Text s).
Hypothesis P_elem : forall e ks, Forall P ks -> P (Elem e ks).

Fixpoint node_ind (n : node) : P n :=
  match n with
  | Text s => P_text s
  | Elem e ks =>
      P_elem e ks
        ((fix go (l : list node) : Forall P l :=
            match l with
            | [] => List.Forall_nil P
            | k :: r => List.Forall_cons P k r (node_ind k) (go r)
            end) ks)
  end.
End node_induction.

Definition hasAttribute (name : string) (e : element) : bool :=
  bool_decide (is_Some (attrs e !! name)).

Definition getAttribute (name : string) (e : element) : option string :=
  attrs e !! name.

Definition with_attrs (f : gmap string string -> gmap string string)
    (e : element) : element :=
  mkElement (id e) (tag e) (f (attrs e)).

(** [node.textContent] *)
Fixpoint textContent (n : node) : string :=
  match n with
  | Text s => s
  | Elem _ ks => Str.concat (map textContent ks)
  end.

(** The elements of a subtree in document order, its root first. *)
Fixpoint elements (n : node) : list element :=
  match n with
  | Text _ => []
  | Elem e ks => e :: flat_map elements ks
  end.

Definition kids_of (n : node) : list node :=
  match n with Text _ => [] | Elem _ ks => ks end.

(** The proper descendants: what [querySelectorAll] and
    [getElementsByTagName] range over. *)
Definition descendants (n : node) : list element :=
  flat_map elements (kids_of n).

Definition ids (n : node) : list nat := map id (elements n).

(** A selector is a test on an element; the selectors of the source look
    at the local name and at attributes only. *)
Definition selector : Type := element -> bool.

(** [root.querySelectorAll(sel)]: references to the matching descendants, in
    document order. The list is static: it keeps naming these elements
    whatever happens to the tree afterwards. *)
Definition querySelectorAll (sel : selector) (root : node) : list nat :=
  map id (List.filter sel (descendants root)).

Definition first_some {A : Type} (l : list (option A)) : option A :=
  foldr (fun o acc => match o with Some x => Some x | None => acc end) None l.

(** The element with identity [k] in the tree, with its subtree. *)
Fixpoint find (k : nat) (n : node) : option node :=
  match n with
  | Text _ => None
  | Elem e ks =>
      if id e =? k then Some n else first_some (map (find k) ks)
  end.

(** The element [k] followed by its ancestors, innermost first, up to the
    root of the tree. *)
Fixpoint ancestors (k : nat) (n : node) : option (list element) :=
  match n with
  | Text _ => None
  | Elem e ks =>
      if id e =? k then Some [e]
      else match first_some (map (ancestors k) ks) with
           | Some l => Some (l ++ [e])
           | None => None
           end
  end.

(** [el.parentElement] *)
Definition parentElement (k : nat) (root : node) : option element :=
  match ancestors k root with
  | Some (_ :: p :: _) => Some p
  | _ => None
  end.

(** [root.contains(el)]: the root itself counts. *)
Definition contains (root : node) (k : nat) : bool :=
  existsb (Nat.eqb k) (ids root).

(** Apply [f] to the attributes of the element [k]. An element that is no
    longer in the tree is changed out of sight: the tree stays as it is. *)
Fixpoint update (k : nat) (f : gmap string string -> gmap string string)
    (n : node) : node :=
  match n with
  | Text s => Text s
  | Elem e ks =>
      Elem (if id e =? k then with_attrs f e else e) (map (update k f) ks)
  end.

Definition setAttribute (k : nat) (name value : string) : node -> node :=
  update k (insert name value).

Definition removeAttribute (k : nat) (name : string) : node -> node :=
  update k (delete name).

(** Every element has an identity of its own. *)
Definition wf (n : node) : Prop := NoDup (ids n).

(** An identity no element of the tree has: what [document.createElement]
    hands out next. *)
Definition fresh_id (n : node) : nat := S (foldr Nat.max 0 (ids n)).

(** [Node.prototype.normalize] on a list of siblings: runs of text nodes are
    joined into one and empty text nodes are dropped. *)
Fixpoint join_text (l : list node) : list node :=
  match l with
  | [] => []
  | Text s :: r =>
      match join_text r with
      | Text s' :: r' => Text (s +:+ s') :: r'
      | r' => if Str.truthy s then Text s :: r' else r'
      end
  | n :: r => n :: join_text r
  end.

(** [n.normalize()]: the whole subtree is normalised. *)
Fixpoint normalize (n : node) : node :=
  match n with
  | Text s => Text s
  | Elem e ks => Elem e (join_text (map normalize ks))
  end.

Definition is_mark (e : element) : bool := bool_decide (tag e = "mark").

Definition is_mark_node (n : node) : bool :=
  match n with Text _ => false | Elem e _ => is_mark e end.

(** The per-character view of the highlighting: for each character of
    [textContent], whether it lies inside a [mark] element. *)
Fixpoint marked (inside : bool) (n : node) : list bool :=
  match n with
  | Text s => replicate (String.length s) inside
  | Elem e ks => flat_map (marked (inside || is_mark e)) ks
  end.

End Dom.

(** ** The suggest widget *)

Module Suggest.
Import Dom.

(** [const KEYS] and [const AJAX_DEBOUNCE] *)
Module KEYS.
Definition ENTER : nat := 13.
Definition ESC : nat := 27.
Definition PAGEUP : nat := 33.
Definition PAGEDOWN : nat := 34.
Definition END : nat := 35.
Definition HOME : nat := 36.
Definition UP : nat := 38.
Definition DOWN : nat := 40.
End KEYS.

Definition AJAX_DEBOUNCE : nat := 500.

(** What an event can be aimed at: the input the widget belongs to, an
    element given by its identity (the widget itself or one in its subtree
    when [contains] says so), or something else on the page. *)
Inductive target : Type :=
| TInput
| TElement (k : nat)
| TOther.

#[global] Instance target_eq_dec : EqDecision target.
Proof. solve_decision. Defined.

(** The functions handed to [setTimeout]. *)
Inductive callback : Type :=
| CbMutation                 (* () => onMutation(this) *)
| CbHidden (value : bool)    (* () => (self.hidden = value) *)
| CbAjaxSend.                (* onAjaxSend, self *)

Record timer : Type := mkTimer {
  tid : nat;
  due : nat;
  action : callback
}.

Section Widget.

(** [JSON.parse] belongs to the browser: the type of parsed values and the
    parser are left open. A body that does not parse yields the text of the
    error thrown. *)
Context {json : Type}.
Variable JSON_parse : string -> json + string.

Inductive jsvalue : Type :=
| JsUndefined
| JsFalse
| JsValue (j : json).

(** An [XMLHttpRequest] object, with the expando properties the widget
    stores on it. [pending] is the URL of a request that was sent and has
    neither completed nor been aborted. Request headers are not kept. *)
Record xhr : Type := mkXhr {
  handlers : bool;                 (* onload and onerror are installed *)
  url : string;                    (* set by open() *)
  pending : option string;
  status : nat;
  responseText : string;
  responseJSON : jsvalue;
  responseError : option string
}.

Inductive detail : Type :=
| NoDetail
| DItem (k : nat)
| DXhr (x : xhr).

(** A custom event dispatched on the widget. *)
Record notification : Type := mkNotification {
  name : string;
  payload : detail
}.

(** The widget object: the element, the nodes below it and its private
    fields. The fields that hold objects hold a reference into the browser's
    store, or nothing. *)
Record widget : Type := mkWidget {
  self : element;
  childNodes : list node;
  _observer : option nat;
  _input : bool;
  _regex : bool;
  _xhr : option nat;
  _xhrTime : option nat
}.

(** The page around the widget: the associated input, where the focus is,
    the event types for which the widget is registered as a listener on
    [document], and the notifications the host's listeners cancel. *)
Record page : Type := mkPage {
  input_value : string;
  input_attrs : gmap string string;
  activeElement : target;
  listeners : gset string;
  canceled : gset string
}.

(** The browser: feature flags, the observers and request objects created
    so far, the timer queue and clock, the requests sent and the
    notifications dispatched, oldest first, and whether the event being
    handled had its default action prevented. *)
Record browser : Type := mkBrowser {
  IS_IE11 : bool;
  IS_IOS : bool;
  observers : list bool;
  xhrs : list xhr;
  timers : list timer;
  next_timer : nat;
  now : nat;
  network : list string;
  log : list notification;
  prevented : bool
}.

Record state : Type := mkState {
  wdg : widget;
  doc : page;
  env : browser
}.

Definition with_wdg (f : widget -> widget) (st : state) : state :=
  {| wdg := f (wdg st); doc := doc st; env := env st |}.

Definition with_doc (f : page -> page) (st : state) : state :=
  {| wdg := wdg st; doc := f (doc st); env := env st |}.

Definition with_env (f : browser -> browser) (st : state) : state :=
  {| wdg := wdg st; doc := doc st; env := f (env st) |}.

Definition set_self (v : element) : state -> state :=
  with_wdg (fun x =>
    {| self := v; childNodes := childNodes x;
       _observer := _observer x; _input := _input x;
       _regex := _regex x; _xhr := _xhr x; _xhrTime := _xhrTime x |}).

Definition set_childNodes (v : list node) : state -> state :=
  with_wdg (fun x =>
    {| self := self x; childNodes := v; _observer := _observer x;
       _input := _input x; _regex := _regex x; _xhr := _xhr x;
       _xhrTime := _xhrTime x |}).

Definition set_observer (v : option nat) : state -> state :=
  with_wdg (fun x =>
    {| self := self x; childNodes := childNodes x; _observer := v;
       _input := _input x; _regex := _regex x; _xhr := _xhr x;
       _xhrTime := _xhrTime x |}).

Definition set_input_ref (v : bool) : state -> state :=
  with_wdg (fun x =>
    {| self := self x; childNodes := childNodes x;
       _observer := _observer x; _input := v; _regex := _regex x;
       _xhr := _xhr x; _xhrTime := _xhrTime x |}).

Definition set_regex (v : bool) : state -> state :=
  with_wdg (fun x =>
    {| self := self x; childNodes := childNodes x;
       _observer := _observer x; _input := _input x; _regex := v;
       _xhr := _xhr x; _xhrTime := _xhrTime x |}).

Definition set_xhr (v : option nat) : state -> state :=
  with_wdg (fun x =>
    {| self := self x; childNodes := childNodes x;
       _observer := _observer x; _input := _input x;
       _regex := _regex x; _xhr := v; _xhrTime := _xhrTime x |}).

Definition set_xhrTime (v : option nat) : state -> state :=
  with_wdg (fun x =>
    {| self := self x; childNodes := childNodes x;
       _observer := _observer x; _input := _input x;
       _regex := _regex x; _xhr := _xhr x; _xhrTime := v |}).

Definition set_input_value (v : string) : state -> state :=
  with_doc (fun x =>
    {| input_value := v; input_attrs := input_attrs x;
       activeElement := activeElement x; listeners := listeners x;
       canceled := canceled x |}).

Definition set_input_attrs (v : gmap string string) : state -> state :=
  with_doc (fun x =>
    {| input_value := input_value x; input_attrs := v;
       activeElement := activeElement x; listeners := listeners x;
       canceled := canceled x |}).

Definition set_activeElement (v : target) : state -> state :=
  with_doc (fun x =>
    {| input_value := input_value x; input_attrs := input_attrs x;
       activeElement := v; listeners := listeners x;
       canceled := canceled x |}).

Definition set_listeners (v : gset string) : state -> state :=
  with_doc (fun x =>
    {| input_value := input_value x; input_attrs := input_attrs x;
       activeElement := activeElement x; listeners := v;
       canceled := canceled x |}).

Definition set_canceled (v : gset string) : state -> state :=
  with_doc (fun x =>
    {| input_value := input_value x; input_attrs := input_attrs x;
       activeElement := activeElement x; listeners := listeners x;
       canceled := v |}).

Definition set_observers (v : list bool) : state -> state :=
  with_env (fun x =>
    {| IS_IE11 := IS_IE11 x; IS_IOS := IS_IOS x; observers := v;
       xhrs := xhrs x; timers := timers x; next_timer := next_timer x;
       now := now x; network := network x; log := log x;
       prevented := prevented x |}).

Definition set_xhrs (v : list xhr) : state -> state :=
  with_env (fun x =>
    {| IS_IE11 := IS_IE11 x; IS_IOS := IS_IOS x;
       observers := observers x; xhrs := v; timers := timers x;
       next_timer := next_timer x; now := now x; network := network x;
       log := log x; prevented := prevented x |}).

Definition set_timers (v : list timer) : state -> state :=
  with_env (fun x =>
    {| IS_IE11 := IS_IE11 x; IS_IOS := IS_IOS x;
       observers := observers x; xhrs := xhrs x; timers := v;
       next_timer := next_timer x; now := now x; network := network x;
       log := log x; prevented := prevented x |}).

Definition set_next_timer (v : nat) : state -> state :=
  with_env (fun x =>
    {| IS_IE11 := IS_IE11 x; IS_IOS := IS_IOS x;
       observers := observers x; xhrs := xhrs x; timers := timers x;
       next_timer := v; now := now x; network := network x;
       log := log x; prevented := prevented x |}).

Definition set_now (v : nat) : state -> state :=
  with_env (fun x =>
    {| IS_IE11 := IS_IE11 x; IS_IOS := IS_IOS x;
       observers := observers x; xhrs := xhrs x; timers := timers x;
       next_timer := next_timer x; now := v; network := network x;
       log := log x; prevented := prevented x |}).

Definition set_network (v : list string) : state -> state :=
  with_env (fun x =>
    {| IS_IE11 := IS_IE11 x; IS_IOS := IS_IOS x;
       observers := observers x; xhrs := xhrs x; timers := timers x;
       next_timer := next_timer x; now := now x; network := v;
       log := log x; prevented := prevented x |}).

Definition set_log (v : list notification) : state -> state :=
  with_env (fun x =>
    {| IS_IE11 := IS_IE11 x; IS_IOS := IS_IOS x;
       observers := observers x; xhrs := xhrs x; timers := timers x;
       next_timer := next_timer x; now := now x; network := network x;
       log := v; prevented := prevented x |}).

Definition set_prevented (v : bool) : state -> state :=
  with_env (fun x =>
    {| IS_IE11 := IS_IE11 x; IS_IOS := IS_IOS x;
       observers := observers x; xhrs := xhrs x; timers := timers x;
       next_timer := next_timer x; now := now x; network := network x;
       log := log x; prevented := v |}).

(** The widget element with its subtree. *)
Definition tree (st : state) : node :=
  Elem (self (wdg st)) (childNodes (wdg st)).

(** Put back the subtree after it was worked on; what comes back is the
    widget element again. *)
Definition set_tree (n : node) (st : state) : state :=
  match n with
  | Elem e ks => set_self e (set_childNodes ks st)
  | Text _ => st
  end.

(** *** Attribute getters *)

(** An attribute of the widget element itself. *)
Definition attribute (name : string) (st : state) : option string :=
  getAttribute name (self (wdg st)).

(** [get ajax ()]: [this.getAttribute('ajax') || ''] *)
Definition ajax (st : state) : string := default "" (attribute "ajax" st).

(** [get hidden ()] *)
Definition hidden (st : state) : bool :=
  bool_decide (is_Some (attribute "hidden" st)).

(** The numbers [Math.max(0, attribute)] can see. The conversion covers an
    absent attribute, white space and optionally signed decimal integers;
    any other text is read as [NaN] (fractions, exponents and hexadecimal
    literals are outside the model). *)
Inductive jsnum : Type :=
| NaN
| Num (z : Z).

Definition digits (s : string) : option nat :=
  match s with
  | "" => None
  | _ => Nat.of_uint <$> NilEmpty.uint_of_string s
  end.

Definition to_number (v : option string) : jsnum :=
  match v with
  | None => Num 0
  | Some s =>
      match Str.trim s with
      | "" => Num 0
      | String "-" r =>
          match digits r with Some n => Num (- Z.of_nat n) | None => NaN end
      | String "+" r =>
          match digits r with Some n => Num (Z.of_nat n) | None => NaN end
      | r =>
          match digits r with Some n => Num (Z.of_nat n) | None => NaN end
      end
  end.

(** [get limit ()]: [Math.max(0, this.getAttribute('limit')) || Infinity],
    with [None] for [Infinity]. [NaN] and [0] are falsy. *)
Definition limit (st : state) : option nat :=
  match to_number (attribute "limit" st) with
  | NaN => None
  | Num z => if (Z.max 0 z =? 0)%Z then None else Some (Z.to_nat (Z.max 0 z))
  end.

Inductive mode : Type := On | Off | Keep.

#[global] Instance mode_eq_dec : EqDecision mode.
Proof. solve_decision. Defined.

Definition ends_with (suffix s : string) : bool :=
  let n := String.length s in
  let k := String.length suffix in
  (k <=? n) && bool_decide (substring (n - k) k s = suffix).

(** [get highlight ()]:
    [String(/^on|off|keep$/i.exec(this.getAttribute('highlight')) || 'on')
    .toLowerCase()]. The pattern is an alternation of [^on], [off] and
    [keep$]; the match is the leftmost one, and an absent attribute is
    matched as the text [null]. *)
Definition highlight (st : state) : mode :=
  let s := Str.toLowerCase (default "null" (attribute "highlight" st)) in
  if String.prefix "on" s then On
  else match Str.indexOf s "off" 0, ends_with "keep" s with
       | Some p, true => if p <? String.length s - 4 then Off else Keep
       | Some _, false => Off
       | None, true => Keep
       | None, false => On
       end.

(** [get input ()]. The page of the model has one input, the one the widget
    belongs to: the getter finds it through its [list] attribute or as the
    previous sibling. What is left to model is the cache: [_input] holds
    the input only when it was found through [list]. *)
Definition by_list (st : state) : bool :=
  match attribute "id" st with
  | Some i => Str.truthy i && bool_decide (input_attrs (doc st) !! "list" = Some i)
  | None => false
  end.

Definition input_getter (st : state) : state :=
  if _input (wdg st)
     && bool_decide (input_attrs (doc st) !! "list"
                     = Some (default "" (attribute "id" st)))
  then st
  else set_input_ref (by_list st) st.

(** *** Helpers of the missing [utils] module *)

(** Modelled from the spec: [toggleAttribute] of [../utils] is not among the
    sources; from "attribute toggling" and its uses, it makes the attribute
    present when the flag is set, keeping a value it already has, and
    absent otherwise. *)
Definition toggle_attr (name : string) (force : bool)
    (a : gmap string string) : gmap string string :=
  if force
  then match a !! name with Some _ => a | None => <[name := ""]> a end
  else delete name a.

Definition toggleAttribute (k : nat) (name : string) (force : bool)
    : node -> node :=
  update k (toggle_attr name force).

(** *** Selectors *)

(** ['a,button'] *)
Definition is_item (e : element) : bool :=
  bool_decide (tag e = "a") || bool_decide (tag e = "button").

(** ['a:not([hidden]),button:not([hidden])'] *)
Definition visible_item (e : element) : bool :=
  is_item e && negb (hasAttribute "hidden" e).

(** ['[tabindex="-1"]:not([hidden])'] *)
Definition focusable (e : element) : bool :=
  bool_decide (getAttribute "tabindex" e = Some "-1")
  && negb (hasAttribute "hidden" e).

(** *** toggleItem *)

(** The flag is called [show] in the source; a true flag hides. *)
Definition toggleItem (k : nat) (show : bool) (t : node) : node :=
  let t :=
    match parentElement k t with
    | Some li =>
        if bool_decide (tag li = "li")
        then toggleAttribute (id li) "hidden" show t
        else t
    | None => t
    end in
  toggleAttribute k "hidden" show t.

(** *** onMutation *)

(** One turn of [while (marks[0])] in a list of siblings: the first [mark]
    in document order is replaced by a text node holding its text. The flag
    tells whether the replaced marker was one of these siblings, in which
    case it is their parent that is normalised. *)
Definition unmark_kids (unmark : node -> option node)
    : list node -> option (bool * list node) :=
  fix go (l : list node) :=
    match l with
    | [] => None
    | k :: r =>
        if is_mark_node k then Some (true, Text (textContent k) :: r)
        else match unmark k with
             | Some k' => Some (false, k' :: r)
             | None =>
                 match go r with
                 | Some (direct, r') => Some (direct, k :: r')
                 | None => None
                 end
             end
    end.

Fixpoint unmark_first (n : node) : option node :=
  match n with
  | Text _ => None
  | Elem e ks =>
      match unmark_kids unmark_first ks with
      | Some (true, ks') => Some (normalize (Elem e ks'))
      | Some (false, ks') => Some (Elem e ks')
      | None => None
      end
  end.

Fixpoint unmark_loop (fuel : nat) (n : node) : node :=
  match fuel with
  | 0 => n
  | S fuel' =>
      match unmark_first n with
      | Some n' => unmark_loop fuel' n'
      | None => n
      end
  end.

Definition count_marks (n : node) : nat :=
  length (List.filter is_mark (descendants n)).

(** The whole loop: each turn takes a marker away, so as many turns as there
    are markers suffice ([remove_marks_done]). *)
Definition remove_marks (n : node) : node := unmark_loop (count_marks n) n.

(** The body of [for (let i = 0, l = items.length; i < l; ++i)]. *)
Definition enhance_item (lim i k : nat) (t : node) : node :=
  let text := match find k t with Some n => textContent n | None => "" end in
  let label :=
    text +:+ ", " +:+ Str.of_nat (i + 1) +:+ " av " +:+ Str.of_nat lim in
  let t := setAttribute k "aria-label" label t in
  let t := setAttribute k "tabindex" "-1" t in
  let t := setAttribute k "type" "button" t in
  toggleItem k (lim <=? i) t.

Fixpoint item_loop (lim i : nat) (items : list nat) (t : node) : node :=
  match items with
  | [] => t
  | k :: r => item_loop lim (S i) r (enhance_item lim i k t)
  end.

(** [for (let start = 0; (start = haystack.indexOf(needle, start)) !== -1;
    start += length) hits.push(start)]. Each turn moves [start] forward when
    the needle is not empty, so [S (length haystack)] turns suffice
    ([find_hits_scan]). *)
Fixpoint scan (fuel : nat) (haystack needle : string) (start : nat)
    : list nat :=
  match fuel with
  | 0 => []
  | S fuel' =>
      match Str.indexOf haystack needle start with
      | None => []
      | Some h => h :: scan fuel' haystack needle (h + String.length needle)
      end
  end.

Definition find_hits (haystack needle : string) : list nat :=
  scan (S (String.length haystack)) haystack needle 0.

(** The inner [for] over the hits: the window inside the text node of the
    first hit that touches it. [h - nodeStart] on [nat] is
    [Math.max(hits[i] - nodeStart, 0)]; where the source's [hitEnd] is
    negative, here it is [0], and [hitStart < hitEnd] fails either way. *)
Fixpoint first_hit (hits : list nat) (len nodeStart nodeEnd : nat)
    : option (nat * nat) :=
  match hits with
  | [] => None
  | h :: r =>
      let hitStart := h - nodeStart in
      let hitEnd := Nat.min nodeEnd (h + len) - nodeStart in
      if hitStart <? hitEnd then Some (hitStart, hitEnd)
      else first_hit r len nodeStart nodeEnd
  end.

(** What the outer loop does from one text node on. When a hit touches the
    node, [surroundContents] splits it in three: the text before, a new
    [mark] around the window, and a text node for what follows; the
    iterator skips the text inside the marker, and what follows is the next
    node the loop sees, which is the recursive call. The part that follows
    is shorter than the node, so [fuel] as long as the text suffices. *)
Fixpoint mark_text (fuel : nat) (hits : list nat) (len start : nat)
    (s : string) (fresh : nat) : list node * nat :=
  match first_hit hits len start (start + String.length s) with
  | None => ([Text s], fresh)
  | Some (hitStart, hitEnd) =>
      match fuel with
      | 0 => ([Text s], fresh)
      | S fuel' =>
          let before := Str.slice 0 hitStart s in
          let middle := Str.slice hitStart hitEnd s in
          let after := Str.slice hitEnd (String.length s) s in
          let '(rest, fresh') :=
            mark_text fuel' hits len (start + hitEnd) after (S fresh) in
          (Text before :: Elem (mkElement fresh "mark" ∅) [Text middle] :: rest,
           fresh')
      end
  end.

(** Threading the iteration state, the running offset [start] and the next
    free identity, through a list of siblings. *)
Definition thread (f : node -> nat * nat -> list node * (nat * nat))
    : list node -> nat * nat -> list node * (nat * nat) :=
  fix go (l : list node) (c : nat * nat) :=
    match l with
    | [] => ([], c)
    | k :: r =>
        let '(k', c1) := f k c in
        let '(r', c2) := go r c1 in
        (k' ++ r', c2)
    end.

(** The node iterator yields the text nodes in document order. *)
Fixpoint mark_node (hits : list nat) (len : nat) (n : node) (c : nat * nat)
    : list node * (nat * nat) :=
  match n with
  | Text s =>
      let '(l, fresh') :=
        mark_text (String.length s) hits len (fst c) s (snd c) in
      (l, (fst c + String.length s, fresh'))
  | Elem e ks =>
      let '(ks', c') := thread (mark_node hits len) ks c in
      ([Elem e ks'], c')
  end.

(** The highlighting block of [onMutation]. *)
Definition mark_hits (needle : string) (t : node) : node :=
  let haystack := Str.toLowerCase (textContent t) in
  let hits := find_hits haystack needle in
  match t with
  | Text _ => t
  | Elem e ks =>
      Elem e (fst (thread (mark_node hits (String.length needle)) ks
                     (0, fresh_id t)))
  end.

(** The mutation-observer callback. The observer's record queue is not
    part of the model, so the closing [takeRecords()] has nothing to do. *)
Definition onMutation (st : state) : state :=
  match _observer (wdg st) with
  | None => st
  | Some _ =>
      let st := input_getter st in
      let needle := Str.trim (Str.toLowerCase (input_value (doc st))) in
      let items := querySelectorAll visible_item (tree st) in
      let lim :=
        match limit st with
        | Some l => Nat.min (length items) l
        | None => length items
        end in
      let st :=
        match highlight st with
        | Keep => st
        | _ => set_tree (remove_marks (tree st)) st
        end in
      let st := set_tree (item_loop lim 0 items (tree st)) st in
      if Str.truthy needle && bool_decide (highlight st = On)
         && negb (IS_IE11 (env st))
      then set_tree (mark_hits needle (tree st)) st
      else st
  end.

(** *** The browser's services *)

(** A handler either returns, with a value, or throws; either way the
    state holds the effects up to that point. *)
Inductive result (A : Type) : Type :=
| Ret (a : A) (st : state)
| Throw (err : string) (st : state).
Arguments Ret {A} a st.
Arguments Throw {A} err st.

Definition bind {A B : Type} (r : result A) (k : A -> state -> result B)
    : result B :=
  match r with
  | Ret a st => k a st
  | Throw err st => Throw err st
  end.

Definition state_of {A : Type} (r : result A) : state :=
  match r with Ret _ st => st | Throw _ st => st end.

Definition returns {A : Type} (r : result A) : bool :=
  match r with Ret _ _ => true | Throw _ _ => false end.

(** Reading a property of [null]. *)
Definition TypeError : string := "TypeError".

(** Modelled from the spec: [dispatchEvent] of [../utils] is not among the
    sources; from "event dispatch with cancelable defaults maps to a
    return-value convention: handler returns whether the default action
    should proceed", it dispatches the custom event on the widget and
    answers whether no listener canceled it. *)
Definition dispatchEvent (evname : string) (d : detail) (st : state)
    : bool * state :=
  (negb (bool_decide (evname ∈ canceled (doc st))),
   set_log (log (env st) ++ [mkNotification evname d]) st).

Definition setTimeout (f : callback) (delay : nat) (st : state)
    : nat * state :=
  let i := next_timer (env st) in
  (i, set_next_timer (S i)
        (set_timers
           (timers (env st) ++ [mkTimer i (now (env st) + delay) f]) st)).

(** [clearTimeout(undefined)] and clearing a timer that already ran do
    nothing. *)
Definition clearTimeout (i : option nat) (st : state) : state :=
  match i with
  | Some i =>
      set_timers (List.filter (fun t => negb (tid t =? i)) (timers (env st))) st
  | None => st
  end.

Definition blank_xhr : xhr :=
  {| handlers := false; url := ""; pending := None; status := 0;
     responseText := ""; responseJSON := JsUndefined; responseError := None |}.

Definition xhr_with_handlers (x : xhr) : xhr :=
  {| handlers := true; url := url x; pending := pending x;
     status := status x; responseText := responseText x;
     responseJSON := responseJSON x; responseError := responseError x |}.

(** [x.abort()]: the request in flight, if any, is dropped; neither [onload]
    nor [onerror] will run for it. *)
Definition xhr_abort (x : xhr) : xhr :=
  {| handlers := handlers x; url := url x; pending := None;
     status := 0; responseText := "";
     responseJSON := responseJSON x; responseError := responseError x |}.

(** [x.open('GET', u, true)], which also ends a request in flight. *)
Definition xhr_open (u : string) (x : xhr) : xhr :=
  {| handlers := handlers x; url := u; pending := None;
     status := 0; responseText := "";
     responseJSON := responseJSON x; responseError := responseError x |}.

Definition xhr_send (x : xhr) : xhr :=
  {| handlers := handlers x; url := url x; pending := Some (url x);
     status := status x; responseText := responseText x;
     responseJSON := responseJSON x; responseError := responseError x |}.

(** The response arrives: the request is no longer in flight. *)
Definition xhr_done (code : nat) (body : string) (x : xhr) : xhr :=
  {| handlers := handlers x; url := url x; pending := None;
     status := code; responseText := body;
     responseJSON := responseJSON x; responseError := responseError x |}.

Definition xhr_set_responseJSON (v : jsvalue) (x : xhr) : xhr :=
  {| handlers := handlers x; url := url x; pending := pending x;
     status := status x; responseText := responseText x;
     responseJSON := v; responseError := responseError x |}.

Definition xhr_set_responseError (v : option string) (x : xhr) : xhr :=
  {| handlers := handlers x; url := url x; pending := pending x;
     status := status x; responseText := responseText x;
     responseJSON := responseJSON x; responseError := v |}.

(** Change the request object at address [i] of the store. *)
Definition on_xhr (i : nat) (f : xhr -> xhr) (st : state) : state :=
  set_xhrs (alter f i (xhrs (env st))) st.

(** The object [self._xhr] stands for, as an event detail. *)
Definition xhr_detail (st : state) : detail :=
  match _xhr (wdg st) with
  | Some i =>
      match xhrs (env st) !! i with Some x => DXhr x | None => NoDetail end
  | None => NoDetail
  end.

(** The requests in flight, over all request objects ever created. *)
Definition in_flight (st : state) : list string :=
  omap pending (xhrs (env st)).

(** [el.focus()]. The [focusin] event this gives rise to reaches the
    document listeners as an event of its own. *)
Definition focus (t : target) (st : state) : state := set_activeElement t st.

Definition contains_target (st : state) (t : target) : bool :=
  match t with
  | TElement k => contains (tree st) k
  | _ => false
  end.

Definition map_root (f : gmap string string -> gmap string string)
    (n : node) : node :=
  match n with
  | Elem e ks => Elem (with_attrs f e) ks
  | Text s => Text s
  end.

Definition string_of_bool (b : bool) : string :=
  if b then "true" else "false".

(** *** Custom element callbacks and accessors with effects *)

Definition attributeChangedCallback (attr : string) (st : state) : state :=
  match _observer (wdg st) with
  | None => st
  | Some _ =>
      let st :=
        if bool_decide (attr = "hidden")
        then let st := input_getter st in
             set_input_attrs
               (<["aria-expanded" := string_of_bool (negb (hidden st))]>
                  (input_attrs (doc st))) st
        else st in
      if bool_decide (attr = "highlight") then onMutation st else st
  end.

(** [set hidden (val)]: [toggleAttribute(this, 'hidden', val)]; the browser
    calls [attributeChangedCallback] when the attribute was set or removed. *)
Definition set_hidden (val : bool) (st : state) : state :=
  let changed := negb (bool_decide (hidden st = val)) in
  let st := set_tree (map_root (toggle_attr "hidden" val) (tree st)) st in
  if changed then attributeChangedCallback "hidden" st else st.

(** *** Events *)

Record event : Type := mkEvent {
  etype : string;
  etarget : target;
  keyCode : nat;
  ctrlKey : bool;
  altKey : bool;
  metaKey : bool;
  defaultPrevented : bool
}.

(** The [value] property of a candidate: a button reflects its [value]
    attribute, an anchor has none ([undefined], falsy like [""]). *)
Definition value_prop (e : element) : string :=
  if bool_decide (tag e = "button") then default "" (getAttribute "value" e)
  else "".

Definition text_of (k : nat) (t : node) : string :=
  match find k t with Some n => textContent n | None => "" end.

Definition element_of (k : nat) (t : node) : option element :=
  match find k t with Some (Elem e _) => Some e | _ => None end.

(** [items[i].value || items[i].textContent] *)
Definition value_or_text (k : nat) (t : node) : string :=
  match element_of k t with
  | Some e => if Str.truthy (value_prop e) then value_prop e else text_of k t
  | None => ""
  end.

(** *** Remote fetch *)

(** [window.encodeURIComponent] on the bytes of the string. *)
Definition unreserved (c : ascii) : bool :=
  let n := nat_of_ascii c in
  ((65 <=? n) && (n <=? 90)) || ((97 <=? n) && (n <=? 122))
  || ((48 <=? n) && (n <=? 57))
  || bool_decide (n ∈ [45; 95; 46; 33; 126; 42; 39; 40; 41]).

Definition hex_digit (n : nat) : ascii :=
  ascii_of_nat (if n <? 10 then 48 + n else 55 + n).

Fixpoint encodeURIComponent (s : string) : string :=
  match s with
  | EmptyString => EmptyString
  | String c r =>
      if unreserved c then String c (encodeURIComponent r)
      else let n := nat_of_ascii c in
           String "%" (String (hex_digit (n / 16))
                         (String (hex_digit (n mod 16)) (encodeURIComponent r)))
  end.

(** [s.replace(pattern, by)] with a string pattern: the first occurrence
    only. The replacement text here comes out of [encodeURIComponent] and
    so holds no [$] for [replace] to interpret. *)
Definition replace (pattern by_ s : string) : string :=
  match Str.indexOf s pattern 0 with
  | Some i =>
      Str.slice 0 i s +:+ by_
      +:+ Str.slice (i + String.length pattern) (String.length s) s
  | None => s
  end.

(** The closure [self._xhr.onerror]. It reads [self._xhr] when it runs. *)
Definition xhr_onerror (st : state) : result unit :=
  match _xhr (wdg st) with
  | None => Throw TypeError st
  | Some i =>
      let st :=
        on_xhr i (xhr_set_responseError (Some "Error: Network request failed"))
          st in
      Ret tt (snd (dispatchEvent "suggest.ajax.error" (xhr_detail st) st))
  end.

(** The closure [self._xhr.onload]. *)
Definition xhr_onload (st : state) : result unit :=
  match _xhr (wdg st) with
  | None => Throw TypeError st
  | Some i =>
      match xhrs (env st) !! i with
      | None => Throw TypeError st
      | Some x =>
          if negb (status x =? 200)
          then Ret tt (snd (dispatchEvent "suggest.ajax.error" (DXhr x) st))
          else
            let st :=
              match JSON_parse (responseText x) with
              | inl j => on_xhr i (xhr_set_responseJSON (JsValue j)) st
              | inr err =>
                  let st := on_xhr i (xhr_set_responseJSON JsFalse) st in
                  let st := on_xhr i (xhr_set_responseError (Some err)) st in
                  snd (dispatchEvent "suggest.ajax.error" (xhr_detail st) st)
              end in
            Ret tt (snd (dispatchEvent "suggest.ajax" (xhr_detail st) st))
      end
  end.

Definition onAjaxSend (st : state) : result unit :=
  match _observer (wdg st) with
  | None => Ret tt st
  | Some _ =>
      let st := input_getter st in
      if negb (Str.truthy (input_value (doc st))) then Ret tt st
      else
        let '(go, st) :=
          dispatchEvent "suggest.ajax.beforeSend" (xhr_detail st) st in
        if go then
          match _xhr (wdg st) with
          | None => Throw TypeError st
          | Some i =>
              let st := on_xhr i xhr_with_handlers st in
              let u :=
                replace "{{value}}"
                  (encodeURIComponent (input_value (doc st))) (ajax st) in
              let st := on_xhr i (xhr_open u) st in
              let st := on_xhr i xhr_send st in
              Ret tt (set_network (network (env st) ++ [u]) st)
          end
        else Ret tt st
  end.

(** The answer is [true], or [undefined] (here [false]) when no endpoint is
    configured. *)
Definition onAjax (st : state) : result bool :=
  if negb (Str.truthy (ajax st)) then Ret false st
  else
    let st := clearTimeout (_xhrTime (wdg st)) st in
    match _xhr (wdg st) with
    | None => Throw TypeError st
    | Some i =>
        let st := on_xhr i xhr_abort st in
        let st := on_xhr i (xhr_set_responseError None) st in
        let '(t, st) := setTimeout CbAjaxSend AJAX_DEBOUNCE st in
        Ret true (set_xhrTime (Some t) st)
    end.

(** *** Input, keyboard and pointer handlers *)

Fixpoint filter_loop (value : string) (items : list nat) (t : node) : node :=
  match items with
  | [] => t
  | k :: r =>
      let hide :=
        negb (Str.includes (Str.toLowerCase (value_or_text k t)) value) in
      filter_loop value r (toggleItem k hide t)
  end.

Definition onInput (ev : event) (st : state) : result unit :=
  let st := input_getter st in
  if negb (bool_decide (etarget ev = TInput)) then Ret tt st
  else
    let '(go, st) := dispatchEvent "suggest.filter" NoDetail st in
    if negb go then Ret tt st
    else
      bind (onAjax st) (fun remote st =>
        if remote then Ret tt st
        else
          let st := input_getter st in
          let value := Str.toLowerCase (input_value (doc st)) in
          let items := querySelectorAll is_item (tree st) in
          Ret tt (set_tree (filter_loop value items (tree st)) st)).

(** Modelled from the spec: [queryAll] of [../utils] is not among the
    sources; a "query helper", it gives the matches of [querySelectorAll]
    as an array. *)
Definition queryAll (sel : selector) (root : node) : list nat :=
  querySelectorAll sel root.

(** Modelled from the spec: [closest] of [../utils] is not among the
    sources; a "query helper", it gives the nearest of the element and its
    ancestors that matches. The widget is taken not to sit inside a
    matching element itself. *)
Definition closest (k : nat) (sel : selector) (root : node) : option element :=
  match ancestors k root with
  | Some chain => List.find sel chain
  | None => None
  end.

(** [array[i]] for any integer [i]: [undefined] outside the array. *)
Definition at_index {A : Type} (l : list A) (i : Z) : option A :=
  if (i <? 0)%Z then None else l !! Z.to_nat i.

(** [array.indexOf(x)] *)
Definition index_of (l : list target) (x : target) : Z :=
  match list_find (eq x) l with
  | Some (i, _) => Z.of_nat i
  | None => (-1)%Z
  end.

(** [a || b] on values of which only [undefined] is falsy. *)
Definition or_else {A : Type} (a b : option A) : option A :=
  match a with Some _ => a | None => b end.

Definition onKey (ev : event) (st : state) : state :=
  let st := input_getter st in
  let inside := contains_target st (etarget ev) in
  if negb inside && negb (bool_decide (etarget ev = TInput)) then st
  else
    let items :=
      TInput :: map TElement (queryAll focusable (tree st)) in
    let key := keyCode ev in
    let i := index_of items (etarget ev) in
    let item : option target :=
      if key =? KEYS.DOWN then
        or_else (at_index items (i + 1)) (at_index items 0)
      else if key =? KEYS.UP then
        or_else (at_index items (i - 1)) (last items)
      else if inside then
        if (key =? KEYS.END) || (key =? KEYS.PAGEDOWN) then last items
        else if (key =? KEYS.HOME) || (key =? KEYS.PAGEUP) then at_index items 1
        else None
      else None in
    let st :=
      if negb (key =? KEYS.DOWN) && negb (key =? KEYS.UP) && inside
         && negb ((key =? KEYS.END) || (key =? KEYS.PAGEDOWN))
         && negb ((key =? KEYS.HOME) || (key =? KEYS.PAGEUP))
         && negb (key =? KEYS.ENTER)
      then focus TInput st
      else st in
    let st := snd (setTimeout (CbHidden (key =? KEYS.ESC)) 0 st) in
    let st :=
      if bool_decide (is_Some item) || (key =? KEYS.ESC)
      then set_prevented true st
      else st in
    match item with
    | Some x => focus x st
    | None => st
    end.

Definition onClick (ev : event) (st : state) : state :=
  let item : option element :=
    if bool_decide (etype ev = "click") && contains_target st (etarget ev)
    then match etarget ev with
         | TElement k => closest k is_item (tree st)
         | _ => None
         end
    else None in
  let st := input_getter st in
  let show :=
    negb (bool_decide (is_Some item))
    && (contains_target st (etarget ev) || bool_decide (etarget ev = TInput)) in
  let st :=
    match item with
    | Some e =>
        let '(go, st) := dispatchEvent "suggest.select" (DItem (id e)) st in
        if go then
          let v :=
            if Str.truthy (value_prop e) then value_prop e
            else Str.trim (text_of (id e) (tree st)) in
          focus TInput (set_input_value v st)
        else st
    | None => st
    end in
  snd (setTimeout (CbHidden (negb show)) 0 st).

Definition handleEvent (ev : event) (st : state) : result unit :=
  if ctrlKey ev || altKey ev || metaKey ev || defaultPrevented ev
  then Ret tt st
  else
    let st :=
      if bool_decide (etype ev = "focusin") || bool_decide (etype ev = "click")
      then onClick ev st
      else st in
    let st := if bool_decide (etype ev = "keydown") then onKey ev st else st in
    if bool_decide (etype ev = "input") then onInput ev st else Ret tt st.

(** *** Attachment and detachment *)

Definition document_events : gset string :=
  {["click"; "input"; "keydown"; "focusin"]}.

Definition connectedCallback (st : state) : state :=
  let o := length (observers (env st)) in
  let st := set_observers (observers (env st) ++ [true]) st in
  let st := set_observer (Some o) st in
  let x := length (xhrs (env st)) in
  let st := set_xhrs (xhrs (env st) ++ [blank_xhr]) st in
  let st := set_xhr (Some x) st in
  let st := input_getter st in
  let a := input_attrs (doc st) in
  let a := if IS_IOS (env st) then <["role" := "combobox"]> a else a in
  let a := <["autocomplete" := "off"]> a in
  let a := <["aria-autocomplete" := "list"]> a in
  let a := <["aria-expanded" := "false"]> a in
  let st := set_input_attrs a st in
  let st := set_listeners (listeners (doc st) ∪ document_events) st in
  let st := snd (setTimeout CbMutation 0 st) in
  if bool_decide (activeElement (doc st) = TInput) then set_hidden false st
  else st.

Definition disconnectedCallback (st : state) : result unit :=
  let st := set_listeners (listeners (doc st) ∖ document_events) st in
  match _observer (wdg st) with
  | None => Throw TypeError st
  | Some o =>
      let st := set_observers (<[o := false]> (observers (env st))) st in
      Ret tt (set_xhr None (set_regex false (set_input_ref false
                (set_observer None st))))
  end.

(** *** The event loop *)

Definition run_callback (f : callback) (st : state) : result unit :=
  match f with
  | CbMutation => Ret tt (onMutation st)
  | CbHidden v => Ret tt (set_hidden v st)
  | CbAjaxSend => onAjaxSend st
  end.

(** The timer to run next: among those that are due, the one due first,
    the one set first among equals. *)
Definition next_due (st : state) : option timer :=
  foldr (fun t best =>
           if due t <=? now (env st) then
             match best with
             | Some b => if due t <=? due b then Some t else Some b
             | None => Some t
             end
           else best)
        None (timers (env st)).

(** Timers that are due run in turn. No callback of the widget sets a
    timer, so as many turns as there are timers suffice
    ([elapse_settles]). *)
Fixpoint fire_due (fuel : nat) (st : state) : result unit :=
  match fuel with
  | 0 => Ret tt st
  | S fuel' =>
      match next_due st with
      | None => Ret tt st
      | Some t =>
          bind (run_callback (action t) (clearTimeout (Some (tid t)) st))
               (fun _ => fire_due fuel')
      end
  end.

(** What the page and the network do to the widget. *)
Inductive task : Type :=
| Deliver (ev : event)                  (* an event reaches [document] *)
| Typing (value : string)               (* the user edits the input *)
| Elapse (ms : nat)                     (* time passes *)
| Respond (x : nat) (code : nat) (body : string)
| Fail (x : nat)                        (* the request fails on the network *)
| Attach
| Detach.

Definition deliver (ev : event) (st : state) : result unit :=
  if bool_decide (etype ev ∈ listeners (doc st))
  then handleEvent ev (set_prevented (defaultPrevented ev) st)
  else Ret tt st.

Definition plain (type : string) (t : target) (key : nat) : event :=
  {| etype := type; etarget := t; keyCode := key; ctrlKey := false;
     altKey := false; metaKey := false; defaultPrevented := false |}.

Definition step (t : task) (st : state) : result unit :=
  match t with
  | Deliver ev => deliver ev st
  | Typing v => deliver (plain "input" TInput 0) (set_input_value v st)
  | Elapse ms =>
      let st := set_now (now (env st) + ms) st in
      fire_due (length (timers (env st))) st
  | Respond i code body =>
      match xhrs (env st) !! i with
      | Some x =>
          match pending x with
          | Some _ =>
              let st := on_xhr i (xhr_done code body) st in
              if handlers x then xhr_onload st else Ret tt st
          | None => Ret tt st
          end
      | None => Ret tt st
      end
  | Fail i =>
      match xhrs (env st) !! i with
      | Some x =>
          match pending x with
          | Some _ =>
              let st := on_xhr i (xhr_done 0 "") st in
              if handlers x then xhr_onerror st else Ret tt st
          | None => Ret tt st
          end
      | None => Ret tt st
      end
  | Attach => Ret tt (connectedCallback st)
  | Detach => disconnectedCallback st
  end.

Fixpoint run (ts : list task) (st : state) : result unit :=
  match ts with
  | [] => Ret tt st
  | t :: r => bind (step t st) (fun _ => run r)
  end.

(** *** Observations *)

(** The candidates of the widget and whether each carries [hidden], in
    document order. *)
Definition flags (t : node) : list (nat * bool) :=
  map (fun e => (id e, hasAttribute "hidden" e))
      (List.filter is_item (descendants t)).

(** The candidates without [hidden]: what [onMutation] calls [items]. *)
Definition visible_items (t : node) : list nat :=
  querySelectorAll visible_item t.

(** The candidates with [hidden]. *)
Definition hidden_items (t : node) : list nat :=
  querySelectorAll (fun e => is_item e && hasAttribute "hidden" e) t.

Definition is_text (n : node) : bool :=
  match n with Text _ => true | Elem _ _ => false end.

(** Every [mark] wraps text only, as the markers do that the widget itself
    puts in. *)
Fixpoint marks_flat (n : node) : bool :=
  match n with
  | Text _ => true
  | Elem e ks =>
      (if is_mark e then forallb is_text ks else true)
      && forallb marks_flat ks
  end.

(** For each character of the widget's text, whether a marker wraps it. *)
Definition highlighted (t : node) : list bool :=
  flat_map (marked false) (kids_of t).


(** The hits as the search loop of the highlighting finds them: each search
    starts where the hit before it ends, and the list ends where the search
    fails. *)
Inductive greedy (haystack needle : string) : nat -> list nat -> Prop :=
| greedy_end start :
    Str.indexOf haystack needle start = None ->
    greedy haystack needle start []
| greedy_hit start h l :
    Str.indexOf haystack needle start = Some h ->
    greedy haystack needle (h + String.length needle) l ->
    greedy haystack needle start (h :: l).

(** The verdict of the input filter on the candidate [k]: hide it when its
    value, or its text when it has no value, does not contain the typed
    text. *)
Definition hide (value : string) (t : node) (k : nat) : bool :=
  negb (Str.includes (Str.toLowerCase (value_or_text k t)) value).



(** The number of candidates a mutation pass leaves visible: the count of
    the visible ones, capped by [limit]. *)
Definition effective_limit (st : state) : nat :=
  match limit st with
  | Some l => Nat.min (length (visible_items (tree st))) l
  | None => length (visible_items (tree st))
  end.

(** The widget is attached and listening, holds a request object, has a
    remote endpoint, and the host cancels neither the filter nor the
    request. *)
Definition ready (st : state) : Prop :=
  ("input" ∈ listeners (doc st))
  /\ is_Some (_observer (wdg st))
  /\ (exists i, _xhr (wdg st) = Some i /\ i < length (xhrs (env st)))
  /\ Str.truthy (ajax st) = true
  /\ ("suggest.filter" ∉ canceled (doc st))
  /\ ("suggest.ajax.beforeSend" ∉ canceled (doc st)).

(** The URL a request for the text [v] goes to. *)
Definition request_url (st : state) (v : string) : string :=
  replace "{{value}}" (encodeURIComponent v) (ajax st).

(** Whether a timer is a debounce of the fetch. *)
Definition is_send (t : timer) : bool :=
  match action t with CbAjaxSend => true | _ => false end.

(** The debounces that are pending. *)
Definition sends (st : state) : list timer :=
  List.filter is_send (timers (env st)).

(** The timer ids in the queue are distinct and were handed out by the
    counter, and the widget remembers every debounce that is pending. *)
Definition tidy (st : state) : Prop :=
  NoDup (map tid (timers (env st)))
  /\ (forall t, In t (timers (env st)) -> tid t < next_timer (env st))
  /\ (forall t, In t (sends st) -> _xhrTime (wdg st) = Some (tid t)).

(** Only the request object at address [i] can have a request in flight,
    and the widget holds no other request object. *)
Definition sole (i : nat) (st : state) : Prop :=
  (forall j x, xhrs (env st) !! j = Some x -> is_Some (pending x) -> j = i)
  /\ (forall k, _xhr (wdg st) = Some k -> k = i).


End Widget.

Arguments Ret {json A} a st.
Arguments Throw {json A} err st.

End Suggest.

(** ** Sample pages *)

Module Samples.
Import Dom Suggest.

Definition el (i : nat) (t : string) (a : list (string * string)) : element :=
  mkElement i t (list_to_map a).

Definition anchor (i : nat) (a : list (string * string)) (text : string)
    : node :=
  Elem (el i "a" a) [Text text].

Definition li (i : nat) (k : node) : node := Elem (el i "li" []) [k].

(** Three suggestions in a list: two anchors and a button with a value. *)
Definition fruit : list node :=
  [Elem (el 1 "ul" [])
     [li 2 (anchor 3 [] "Apple");
      li 4 (anchor 5 [] "Banana");
      li 6 (Elem (el 7 "button" [("value", "cherry")]) [Text "Kirsche"])]].

(** The same with the second suggestion hidden. *)
Definition fruit_one_hidden : list node :=
  [Elem (el 1 "ul" [])
     [li 2 (anchor 3 [] "Apple");
      Elem (el 4 "li" [("hidden", "")]) [anchor 5 [("hidden", "")] "Banana"];
      li 6 (Elem (el 7 "button" [("value", "cherry")]) [Text "Kirsche"])]].

(** A stand-in for [JSON.parse]: objects parse, to their own text. *)
Definition parse (s : string) : string + string :=
  if String.prefix "{" s then inl s
  else inr "SyntaxError: Unexpected token".

(** A widget that is attached, with the given attributes, subtree and
    input text: it holds its observer and its request object and listens on
    the document. Nothing is pending. *)
Definition page_with (attrs : list (string * string)) (kids : list node)
    (value : string) : @state string :=
  {| wdg := {| self := el 0 "core-suggest" attrs; childNodes := kids;
               _observer := Some 0; _input := false; _regex := false;
               _xhr := Some 0; _xhrTime := None |};
     doc := {| input_value := value; input_attrs := ∅;
               activeElement := TInput; listeners := document_events;
               canceled := ∅ |};
     env := {| IS_IE11 := false; IS_IOS := false; observers := [true];
               xhrs := [blank_xhr]; timers := []; next_timer := 0; now := 0;
               network := []; log := []; prevented := false |} |}.

(** The sample list with a remote endpoint configured. *)
Definition remote_page (value : string) : @state string :=
  page_with [("ajax", "/search?q={{value}}")] fruit value.

(** The user has typed "a": the debounce is pending. *)
Definition typed_page : @state string :=
  state_of (run parse [Typing "a"] (remote_page "")).

(** The debounce has expired: the request for "a" is in flight. *)
Definition searching_page : @state string :=
  state_of (run parse [Typing "a"; Elapse 500] (remote_page "")).


(** A host that cancels the notification [name]. *)
Definition canceling (name : string) (st : @state string) : @state string :=
  set_canceled ({[name]} ∪ canceled (doc st)) st.

End Samples.

(** * Facts

    ** Strings *)

Module StrFacts.
Import Str.

Lemma append_cons (c : ascii) (s t : string) :
  String c s +:+ t = String c (s +:+ t).
Proof. reflexivity. Qed.


Lemma length_append (s t : string) :
  String.length (s +:+ t) = String.length s + String.length t.
Proof.
  induction s as [|c s IH]; [reflexivity|].
  rewrite append_cons. simpl. now rewrite IH.
Qed.


Lemma append_assoc (s t u : string) : (s +:+ t) +:+ u = s +:+ (t +:+ u).
Proof.
  induction s as [|c s IH]; [reflexivity|]. now rewrite !append_cons, IH.
Qed.


Lemma length_toLowerCase (s : string) :
  String.length (toLowerCase s) = String.length s.
Proof. induction s as [|c s IH]; simpl; [reflexivity | now rewrite IH]. Qed.



(** [indexOf] never answers before the position it starts from. *)
Lemma indexOf_ge (h n : string) (start m : nat) :
  indexOf h n start = Some m -> start <= m.
Proof.
  unfold indexOf. revert start m.
  induction h as [|c h IH]; intros start m; simpl.
  - destruct start; [|discriminate]. intros _. lia.
  - destruct start as [|start].
    + intros _. lia.
    + destruct (index start n h) as [k|] eqn:E; [|discriminate].
      intros H. injection H as <-. apply IH in E. lia.
Qed.

Lemma length_substring_le (s : string) (a k : nat) :
  String.length (substring a k s) <= k.
Proof.
  revert a k. induction s as [|c s IH]; intros [|a] [|k]; simpl; try lia.
  - specialize (IH 0 k). lia.
  - apply IH.
  - apply IH.
Qed.





End StrFacts.
(** ** The document tree *)

Module DomFacts.
Import Dom.

(** What [update] does to one element. *)
Definition touch (k : nat) (f : gmap string string -> gmap string string)
    (e : element) : element :=
  if id e =? k then with_attrs f e else e.

Lemma flat_map_map_Forall {A B : Type} (g : A -> A) (h : B -> B)
    (F : A -> list B) (l : list A) :
  Forall (fun x => F (g x) = map h (F x)) l ->
  flat_map F (map g l) = map h (flat_map F l).
Proof.
  induction 1 as [|x l Hx _ IH]; simpl; [reflexivity|].
  now rewrite Hx, IH, map_app.
Qed.

Lemma id_touch k f e : id (touch k f e) = id e.
Proof. unfold touch. now destruct (id e =? k). Qed.

Lemma tag_touch k f e : tag (touch k f e) = tag e.
Proof. unfold touch. now destruct (id e =? k). Qed.

Lemma elements_update k f n :
  elements (update k f n) = map (touch k f) (elements n).
Proof.
  induction n as [s|e ks IH] using node_ind; simpl; [reflexivity|].
  f_equal. now apply flat_map_map_Forall.
Qed.

Lemma descendants_update k f n :
  descendants (update k f n) = map (touch k f) (descendants n).
Proof.
  destruct n as [s|e ks]; simpl; [reflexivity|].
  unfold descendants. simpl. apply flat_map_map_Forall.
  apply List.Forall_forall. intros x _. apply elements_update.
Qed.

Lemma ids_update k f n : ids (update k f n) = ids n.
Proof.
  unfold ids. rewrite elements_update, map_map.
  apply map_ext. intros e. apply id_touch.
Qed.

Lemma wf_update k f n : wf n -> wf (update k f n).
Proof. unfold wf. now rewrite ids_update. Qed.


Lemma marked_update k f b n : marked b (update k f n) = marked b n.
Proof.
  revert b. induction n as [s|e ks IH] using node_ind; intros b; simpl; [reflexivity|].
  assert (E : is_mark (if id e =? k then with_attrs f e else e) = is_mark e)
    by (now destruct (id e =? k)).
  rewrite E. clear E. induction IH as [|x l Hx _ IHl]; simpl; [reflexivity|].
  now rewrite Hx, IHl.
Qed.

Lemma first_some_map {A B : Type} (g : A -> B) (l : list (option A)) :
  first_some (map (fmap g) l) = g <$> first_some l.
Proof.
  induction l as [|[a|] l IH]; simpl; [reflexivity|reflexivity|exact IH].
Qed.


Lemma ancestors_update j k f n :
  ancestors j (update k f n) = map (touch k f) <$> ancestors j n.
Proof.
  induction n as [s|e ks IH] using node_ind; simpl; [reflexivity|].
  fold (touch k f e). rewrite id_touch.
  destruct (id e =? j); [reflexivity|].
  rewrite map_map.
  assert (E : map (fun x => ancestors j (update k f x)) ks
              = map (fmap (map (touch k f))) (map (ancestors j) ks)).
  { rewrite map_map. apply map_ext_Forall. exact IH. }
  rewrite E, first_some_map.
  destruct (first_some (map (ancestors j) ks)) as [l|]; simpl; [|reflexivity].
  now rewrite map_app.
Qed.

Lemma parentElement_update j k f n :
  parentElement j (update k f n) = touch k f <$> parentElement j n.
Proof.
  unfold parentElement. rewrite ancestors_update.
  destruct (ancestors j n) as [[|a [|b l]]|]; reflexivity.
Qed.

Lemma first_some_In {A : Type} (l : list (option A)) (a : A) :
  first_some l = Some a -> In (Some a) l.
Proof.
  induction l as [|[x|] l IH]; simpl; intros H; [discriminate| |].
  - left. exact H.
  - right. now apply IH.
Qed.

(** The chain of ancestors starts at the element asked for and stays
    within the tree. *)
Lemma ancestors_spec k n l :
  ancestors k n = Some l ->
  (exists e r, l = e :: r /\ id e = k) /\ incl l (elements n).
Proof.
  revert l. induction n as [s|e ks IH] using node_ind; intros l; simpl; [discriminate|].
  destruct (id e =? k) eqn:E.
  - intros H. injection H as <-. apply Nat.eqb_eq in E. split.
    + now exists e, [].
    + intros x [<-|[]]. now left.
  - destruct (first_some (map (ancestors k) ks)) as [c|] eqn:F; [|discriminate].
    intros H. injection H as <-.
    apply first_some_In in F. apply in_map_iff in F as (x & Hx & Hin).
    rewrite List.Forall_forall in IH. destruct (IH x Hin c Hx) as [(e0 & r & -> & He0) Hc].
    split.
    + exists e0, (r ++ [e]). now split.
    + intros y Hy. apply in_app_or in Hy as [Hy|[<-|[]]]; [|now left].
      right. apply in_flat_map. exists x. split; [exact Hin|]. now apply Hc.
Qed.

Lemma parentElement_In k n p :
  parentElement k n = Some p -> In p (elements n).
Proof.
  unfold parentElement.
  destruct (ancestors k n) as [[|a [|b l]]|] eqn:E; try discriminate.
  intros H. injection H as <-. apply ancestors_spec in E as [_ Hi].
  apply Hi. right. now left.
Qed.

Lemma descendants_incl n : incl (descendants n) (elements n).
Proof.
  destruct n as [s|e ks]; simpl; [easy|]. intros x Hx. now right.
Qed.

(** In a well-formed tree an identity names one element. *)
Lemma wf_same_id n a b :
  wf n -> In a (elements n) -> In b (elements n) -> id a = id b -> a = b.
Proof.
  unfold wf, ids. generalize (elements n). intros l.
  induction l as [|x l IH]; simpl; [easy|].
  intros Hnd [<-|Ha] [<-|Hb] E; try reflexivity.
  - apply NoDup_cons in Hnd as [Hx _]. exfalso. apply Hx.
    rewrite E. apply list_elem_of_In, in_map. exact Hb.
  - apply NoDup_cons in Hnd as [Hx _]. exfalso. apply Hx.
    rewrite <- E. apply list_elem_of_In, in_map. exact Ha.
  - apply NoDup_cons in Hnd as [_ Hnd]. now apply IH.
Qed.

End DomFacts.

(** ** Frame facts: what each write leaves alone *)

Module FrameFacts.
Import Dom Suggest.

Create Rewrite HintDb frame.

Section Widget.
Context {json : Type}.
Implicit Types st : @state json.

Lemma wdg_set_observers v st : wdg (set_observers v st) = wdg st.
Proof. reflexivity. Qed.

Lemma doc_set_observers v st : doc (set_observers v st) = doc st.
Proof. reflexivity. Qed.

Lemma tree_set_observers v st : tree (set_observers v st) = tree st.
Proof. reflexivity. Qed.

Lemma attribute_set_observers a v st : attribute a (set_observers v st) = attribute a st.
Proof. reflexivity. Qed.

Lemma wdg_set_xhrs v st : wdg (set_xhrs v st) = wdg st.
Proof. reflexivity. Qed.

Lemma doc_set_xhrs v st : doc (set_xhrs v st) = doc st.
Proof. reflexivity. Qed.

Lemma tree_set_xhrs v st : tree (set_xhrs v st) = tree st.
Proof. reflexivity. Qed.

Lemma attribute_set_xhrs a v st : attribute a (set_xhrs v st) = attribute a st.
Proof. reflexivity. Qed.

Lemma wdg_set_timers v st : wdg (set_timers v st) = wdg st.
Proof. reflexivity. Qed.

Lemma doc_set_timers v st : doc (set_timers v st) = doc st.
Proof. reflexivity. Qed.

Lemma tree_set_timers v st : tree (set_timers v st) = tree st.
Proof. reflexivity. Qed.

Lemma attribute_set_timers a v st : attribute a (set_timers v st) = attribute a st.
Proof. reflexivity. Qed.

Lemma wdg_set_next_timer v st : wdg (set_next_timer v st) = wdg st.
Proof. reflexivity. Qed.

Lemma doc_set_next_timer v st : doc (set_next_timer v st) = doc st.
Proof. reflexivity. Qed.

Lemma tree_set_next_timer v st : tree (set_next_timer v st) = tree st.
Proof. reflexivity. Qed.

Lemma attribute_set_next_timer a v st : attribute a (set_next_timer v st) = attribute a st.
Proof. reflexivity. Qed.

Lemma wdg_set_now v st : wdg (set_now v st) = wdg st.
Proof. reflexivity. Qed.

Lemma doc_set_now v st : doc (set_now v st) = doc st.
Proof. reflexivity. Qed.

Lemma tree_set_now v st : tree (set_now v st) = tree st.
Proof. reflexivity. Qed.

Lemma attribute_set_now a v st : attribute a (set_now v st) = attribute a st.
Proof. reflexivity. Qed.

Lemma wdg_set_network v st : wdg (set_network v st) = wdg st.
Proof. reflexivity. Qed.

Lemma doc_set_network v st : doc (set_network v st) = doc st.
Proof. reflexivity. Qed.

Lemma tree_set_network v st : tree (set_network v st) = tree st.
Proof. reflexivity. Qed.

Lemma attribute_set_network a v st : attribute a (set_network v st) = attribute a st.
Proof. reflexivity. Qed.

Lemma wdg_set_log v st : wdg (set_log v st) = wdg st.
Proof. reflexivity. Qed.

Lemma doc_set_log v st : doc (set_log v st) = doc st.
Proof. reflexivity. Qed.

Lemma tree_set_log v st : tree (set_log v st) = tree st.
Proof. reflexivity. Qed.

Lemma attribute_set_log a v st : attribute a (set_log v st) = attribute a st.
Proof. reflexivity. Qed.

Lemma wdg_set_prevented v st : wdg (set_prevented v st) = wdg st.
Proof. reflexivity. Qed.

Lemma doc_set_prevented v st : doc (set_prevented v st) = doc st.
Proof. reflexivity. Qed.

Lemma tree_set_prevented v st : tree (set_prevented v st) = tree st.
Proof. reflexivity. Qed.

Lemma attribute_set_prevented a v st : attribute a (set_prevented v st) = attribute a st.
Proof. reflexivity. Qed.

Lemma wdg_set_input_value v st : wdg (set_input_value v st) = wdg st.
Proof. reflexivity. Qed.

Lemma env_set_input_value v st : env (set_input_value v st) = env st.
Proof. reflexivity. Qed.

Lemma tree_set_input_value v st : tree (set_input_value v st) = tree st.
Proof. reflexivity. Qed.

Lemma attribute_set_input_value a v st : attribute a (set_input_value v st) = attribute a st.
Proof. reflexivity. Qed.

Lemma wdg_set_input_attrs v st : wdg (set_input_attrs v st) = wdg st.
Proof. reflexivity. Qed.

Lemma env_set_input_attrs v st : env (set_input_attrs v st) = env st.
Proof. reflexivity. Qed.

Lemma tree_set_input_attrs v st : tree (set_input_attrs v st) = tree st.
Proof. reflexivity. Qed.

Lemma attribute_set_input_attrs a v st : attribute a (set_input_attrs v st) = attribute a st.
Proof. reflexivity. Qed.

Lemma wdg_set_activeElement v st : wdg (set_activeElement v st) = wdg st.
Proof. reflexivity. Qed.

Lemma env_set_activeElement v st : env (set_activeElement v st) = env st.
Proof. reflexivity. Qed.

Lemma tree_set_activeElement v st : tree (set_activeElement v st) = tree st.
Proof. reflexivity. Qed.

Lemma attribute_set_activeElement a v st : attribute a (set_activeElement v st) = attribute a st.
Proof. reflexivity. Qed.

Lemma wdg_set_listeners v st : wdg (set_listeners v st) = wdg st.
Proof. reflexivity. Qed.

Lemma env_set_listeners v st : env (set_listeners v st) = env st.
Proof. reflexivity. Qed.

Lemma tree_set_listeners v st : tree (set_listeners v st) = tree st.
Proof. reflexivity. Qed.

Lemma attribute_set_listeners a v st : attribute a (set_listeners v st) = attribute a st.
Proof. reflexivity. Qed.

Lemma wdg_set_canceled v st : wdg (set_canceled v st) = wdg st.
Proof. reflexivity. Qed.

Lemma env_set_canceled v st : env (set_canceled v st) = env st.
Proof. reflexivity. Qed.

Lemma tree_set_canceled v st : tree (set_canceled v st) = tree st.
Proof. reflexivity. Qed.

Lemma attribute_set_canceled a v st : attribute a (set_canceled v st) = attribute a st.
Proof. reflexivity. Qed.

Lemma doc_set_observer v st : doc (set_observer v st) = doc st.
Proof. reflexivity. Qed.

Lemma env_set_observer v st : env (set_observer v st) = env st.
Proof. reflexivity. Qed.

Lemma tree_set_observer v st : tree (set_observer v st) = tree st.
Proof. reflexivity. Qed.

Lemma attribute_set_observer a v st : attribute a (set_observer v st) = attribute a st.
Proof. reflexivity. Qed.

Lemma doc_set_input_ref v st : doc (set_input_ref v st) = doc st.
Proof. reflexivity. Qed.

Lemma env_set_input_ref v st : env (set_input_ref v st) = env st.
Proof. reflexivity. Qed.

Lemma tree_set_input_ref v st : tree (set_input_ref v st) = tree st.
Proof. reflexivity. Qed.

Lemma attribute_set_input_ref a v st : attribute a (set_input_ref v st) = attribute a st.
Proof. reflexivity. Qed.

Lemma doc_set_regex v st : doc (set_regex v st) = doc st.
Proof. reflexivity. Qed.

Lemma env_set_regex v st : env (set_regex v st) = env st.
Proof. reflexivity. Qed.

Lemma tree_set_regex v st : tree (set_regex v st) = tree st.
Proof. reflexivity. Qed.

Lemma attribute_set_regex a v st : attribute a (set_regex v st) = attribute a st.
Proof. reflexivity. Qed.

Lemma doc_set_xhr v st : doc (set_xhr v st) = doc st.
Proof. reflexivity. Qed.

Lemma env_set_xhr v st : env (set_xhr v st) = env st.
Proof. reflexivity. Qed.

Lemma tree_set_xhr v st : tree (set_xhr v st) = tree st.
Proof. reflexivity. Qed.

Lemma attribute_set_xhr a v st : attribute a (set_xhr v st) = attribute a st.
Proof. reflexivity. Qed.

Lemma doc_set_xhrTime v st : doc (set_xhrTime v st) = doc st.
Proof. reflexivity. Qed.

Lemma env_set_xhrTime v st : env (set_xhrTime v st) = env st.
Proof. reflexivity. Qed.

Lemma tree_set_xhrTime v st : tree (set_xhrTime v st) = tree st.
Proof. reflexivity. Qed.

Lemma attribute_set_xhrTime a v st : attribute a (set_xhrTime v st) = attribute a st.
Proof. reflexivity. Qed.


Lemma wdg_clearTimeout i st : wdg (clearTimeout i st) = wdg st.
Proof. now destruct i. Qed.

Lemma doc_clearTimeout i st : doc (clearTimeout i st) = doc st.
Proof. now destruct i. Qed.

Lemma tree_clearTimeout i st : tree (clearTimeout i st) = tree st.
Proof. now destruct i. Qed.

Lemma attribute_clearTimeout a i st :
  attribute a (clearTimeout i st) = attribute a st.
Proof. now destruct i. Qed.

Lemma wdg_on_xhr i f st : wdg (on_xhr i f st) = wdg st.
Proof. reflexivity. Qed.

Lemma doc_on_xhr i f st : doc (on_xhr i f st) = doc st.
Proof. reflexivity. Qed.

Lemma tree_on_xhr i f st : tree (on_xhr i f st) = tree st.
Proof. reflexivity. Qed.

Lemma attribute_on_xhr a i f st : attribute a (on_xhr i f st) = attribute a st.
Proof. reflexivity. Qed.

Lemma wdg_setTimeout f d st : wdg (snd (setTimeout f d st)) = wdg st.
Proof. reflexivity. Qed.

Lemma doc_setTimeout f d st : doc (snd (setTimeout f d st)) = doc st.
Proof. reflexivity. Qed.

Lemma tree_setTimeout f d st : tree (snd (setTimeout f d st)) = tree st.
Proof. reflexivity. Qed.

Lemma wdg_dispatchEvent n d st : wdg (snd (dispatchEvent n d st)) = wdg st.
Proof. reflexivity. Qed.

Lemma doc_dispatchEvent n d st : doc (snd (dispatchEvent n d st)) = doc st.
Proof. reflexivity. Qed.

Lemma tree_dispatchEvent n d st : tree (snd (dispatchEvent n d st)) = tree st.
Proof. reflexivity. Qed.

Lemma wdg_focus t st : wdg (focus t st) = wdg st.
Proof. reflexivity. Qed.

Lemma env_focus t st : env (focus t st) = env st.
Proof. reflexivity. Qed.

Lemma tree_focus t st : tree (focus t st) = tree st.
Proof. reflexivity. Qed.

Lemma tree_set_tree n st : is_text n = false -> tree (set_tree n st) = n.
Proof. now destruct n. Qed.

Lemma doc_set_tree n st : doc (set_tree n st) = doc st.
Proof. now destruct n. Qed.

Lemma env_set_tree n st : env (set_tree n st) = env st.
Proof. now destruct n. Qed.

Lemma observer_set_tree n st :
  _observer (wdg (set_tree n st)) = _observer (wdg st).
Proof. now destruct n. Qed.

Lemma xhr_set_tree n st : _xhr (wdg (set_tree n st)) = _xhr (wdg st).
Proof. now destruct n. Qed.

Lemma xhrTime_set_tree n st :
  _xhrTime (wdg (set_tree n st)) = _xhrTime (wdg st).
Proof. now destruct n. Qed.

Lemma tree_input_getter st : tree (input_getter st) = tree st.
Proof. unfold input_getter. now destruct (_ && _). Qed.

Lemma attribute_input_getter a st :
  attribute a (input_getter st) = attribute a st.
Proof. unfold input_getter. now destruct (_ && _). Qed.

Lemma doc_input_getter st : doc (input_getter st) = doc st.
Proof. unfold input_getter. now destruct (_ && _). Qed.

Lemma env_input_getter st : env (input_getter st) = env st.
Proof. unfold input_getter. now destruct (_ && _). Qed.

Lemma observer_input_getter st :
  _observer (wdg (input_getter st)) = _observer (wdg st).
Proof. unfold input_getter. now destruct (_ && _). Qed.

Lemma xhr_input_getter st : _xhr (wdg (input_getter st)) = _xhr (wdg st).
Proof. unfold input_getter. now destruct (_ && _). Qed.

Lemma xhrTime_input_getter st :
  _xhrTime (wdg (input_getter st)) = _xhrTime (wdg st).
Proof. unfold input_getter. now destruct (_ && _). Qed.

Lemma ajax_attribute st st' :
  attribute "ajax" st = attribute "ajax" st' -> ajax st = ajax st'.
Proof. unfold ajax. now intros ->. Qed.

Lemma xhrs_clearTimeout i st : xhrs (env (clearTimeout i st)) = xhrs (env st).
Proof. now destruct i. Qed.

Lemma now_clearTimeout i st : now (env (clearTimeout i st)) = now (env st).
Proof. now destruct i. Qed.

Lemma next_timer_clearTimeout i st :
  next_timer (env (clearTimeout i st)) = next_timer (env st).
Proof. now destruct i. Qed.

Lemma network_clearTimeout i st :
  network (env (clearTimeout i st)) = network (env st).
Proof. now destruct i. Qed.

Lemma log_clearTimeout i st : log (env (clearTimeout i st)) = log (env st).
Proof. now destruct i. Qed.

Lemma timers_clearTimeout_ext o st st' :
  timers (env st') = timers (env st) ->
  timers (env (clearTimeout o st')) = timers (env (clearTimeout o st)).
Proof. intros H. destruct o; simpl; now rewrite H. Qed.

End Widget.

#[export] Hint Rewrite
  @wdg_set_observers @doc_set_observers @tree_set_observers @attribute_set_observers
  : frame.
#[export] Hint Rewrite
  @wdg_set_xhrs @doc_set_xhrs @tree_set_xhrs @attribute_set_xhrs
  : frame.
#[export] Hint Rewrite
  @wdg_set_timers @doc_set_timers @tree_set_timers @attribute_set_timers
  : frame.
#[export] Hint Rewrite
  @wdg_set_next_timer @doc_set_next_timer @tree_set_next_timer @attribute_set_next_timer
  : frame.
#[export] Hint Rewrite
  @wdg_set_now @doc_set_now @tree_set_now @attribute_set_now
  : frame.
#[export] Hint Rewrite
  @wdg_set_network @doc_set_network @tree_set_network @attribute_set_network
  : frame.
#[export] Hint Rewrite
  @wdg_set_log @doc_set_log @tree_set_log @attribute_set_log
  : frame.
#[export] Hint Rewrite
  @wdg_set_prevented @doc_set_prevented @tree_set_prevented @attribute_set_prevented
  : frame.
#[export] Hint Rewrite
  @wdg_set_input_value @env_set_input_value @tree_set_input_value @attribute_set_input_value
  : frame.
#[export] Hint Rewrite
  @wdg_set_input_attrs @env_set_input_attrs @tree_set_input_attrs @attribute_set_input_attrs
  : frame.
#[export] Hint Rewrite
  @wdg_set_activeElement @env_set_activeElement @tree_set_activeElement @attribute_set_activeElement
  : frame.
#[export] Hint Rewrite
  @wdg_set_listeners @env_set_listeners @tree_set_listeners @attribute_set_listeners
  : frame.
#[export] Hint Rewrite
  @wdg_set_canceled @env_set_canceled @tree_set_canceled @attribute_set_canceled
  : frame.
#[export] Hint Rewrite
  @doc_set_observer @env_set_observer @tree_set_observer @attribute_set_observer
  : frame.
#[export] Hint Rewrite
  @doc_set_input_ref @env_set_input_ref @tree_set_input_ref @attribute_set_input_ref
  : frame.
#[export] Hint Rewrite
  @doc_set_regex @env_set_regex @tree_set_regex @attribute_set_regex
  : frame.
#[export] Hint Rewrite
  @doc_set_xhr @env_set_xhr @tree_set_xhr @attribute_set_xhr
  : frame.
#[export] Hint Rewrite
  @doc_set_xhrTime @env_set_xhrTime @tree_set_xhrTime @attribute_set_xhrTime
  : frame.

#[export] Hint Rewrite
  @wdg_clearTimeout @doc_clearTimeout @tree_clearTimeout @attribute_clearTimeout
  @wdg_on_xhr @doc_on_xhr @tree_on_xhr @attribute_on_xhr
  @wdg_setTimeout @doc_setTimeout @tree_setTimeout
  @wdg_dispatchEvent @doc_dispatchEvent @tree_dispatchEvent
  @wdg_focus @env_focus @tree_focus
  @doc_set_tree @env_set_tree @observer_set_tree @xhr_set_tree
  @xhrTime_set_tree
  @tree_input_getter @attribute_input_getter @doc_input_getter
  @env_input_getter @observer_input_getter @xhr_input_getter
  @xhrTime_input_getter
  @xhrs_clearTimeout @now_clearTimeout @next_timer_clearTimeout
  @network_clearTimeout @log_clearTimeout
  : frame.

(** Computing a field of a state that was written to. *)
Ltac crunch :=
  repeat (progress
    (autorewrite with frame;
     cbn [wdg doc env with_wdg with_doc with_env fst snd negb state_of
          set_self set_childNodes set_observer set_input_ref set_regex
          set_xhr set_xhrTime set_input_value set_input_attrs
          set_activeElement set_listeners set_canceled set_observers
          set_xhrs set_timers set_next_timer set_now set_network set_log
          set_prevented
          self childNodes _observer _input _regex _xhr _xhrTime
          input_value input_attrs activeElement listeners canceled
          IS_IE11 IS_IOS observers xhrs timers next_timer now network log
          prevented
          setTimeout dispatchEvent on_xhr focus])).

End FrameFacts.

(** ** Hiding and showing candidates *)

Module FlagFacts.
Import Dom Suggest DomFacts.

(** What toggling [hidden] on the element [k] does to a candidate's flag. *)
Definition set_flag (k : nat) (b : bool) (x : nat * bool) : nat * bool :=
  (fst x, if fst x =? k then b else snd x).

(** The position of an identity in a list of references. *)
Fixpoint index_in (k : nat) (l : list nat) : option nat :=
  match l with
  | [] => None
  | j :: r => if j =? k then Some 0 else S <$> index_in k r
  end.

Lemma is_item_touch k f e : is_item (touch k f e) = is_item e.
Proof. unfold is_item. now rewrite tag_touch. Qed.

Lemma filter_map_comm {A : Type} (p : A -> bool) (g : A -> A) (l : list A) :
  (forall x, p (g x) = p x) ->
  List.filter p (map g l) = map g (List.filter p l).
Proof.
  intros H. induction l as [|x l IH]; simpl; [reflexivity|].
  rewrite H. destruct (p x); simpl; now rewrite IH.
Qed.

(** Writing an attribute other than [hidden] leaves the flags alone. *)
Lemma flags_update_other k f t :
  (forall a, is_Some (f a !! "hidden") <-> is_Some (a !! "hidden")) ->
  flags (update k f t) = flags t.
Proof.
  intros Hf. unfold flags. rewrite descendants_update.
  rewrite filter_map_comm by (intros; apply is_item_touch).
  rewrite map_map. apply map_ext. intros e.
  rewrite id_touch. f_equal. unfold touch.
  destruct (id e =? k); [|reflexivity].
  unfold hasAttribute. simpl. apply bool_decide_ext, Hf.
Qed.

Lemma flags_setAttribute k name v t :
  name <> "hidden" -> flags (setAttribute k name v t) = flags t.
Proof.
  intros Hn. apply flags_update_other. intros a.
  now rewrite lookup_insert_ne.
Qed.

Lemma hidden_toggle_attr b a :
  bool_decide (is_Some (toggle_attr "hidden" b a !! "hidden")) = b.
Proof.
  unfold toggle_attr. destruct b.
  - destruct (a !! "hidden") eqn:E.
    + rewrite E. now apply bool_decide_eq_true.
    + rewrite lookup_insert_eq. now apply bool_decide_eq_true.
  - rewrite lookup_delete_eq. apply bool_decide_eq_false. now intros [? ?].
Qed.

Lemma flags_toggleAttribute k b t :
  flags (toggleAttribute k "hidden" b t) = map (set_flag k b) (flags t).
Proof.
  unfold flags, toggleAttribute. rewrite descendants_update.
  rewrite filter_map_comm by (intros; apply is_item_touch).
  rewrite !map_map. apply map_ext. intros e.
  unfold set_flag. simpl. rewrite id_touch. f_equal.
  unfold touch. destruct (id e =? k); [|reflexivity].
  unfold hasAttribute. simpl. apply hidden_toggle_attr.
Qed.

Lemma map_set_flag_absent k b (l : list (nat * bool)) :
  ~ In k (map fst l) -> map (set_flag k b) l = l.
Proof.
  induction l as [|[j h] l IH]; simpl; intros H; [reflexivity|].
  unfold set_flag at 1. simpl.
  destruct (j =? k) eqn:E; [apply Nat.eqb_eq in E; tauto|].
  f_equal. apply IH. tauto.
Qed.

Lemma flags_ids t : map fst (flags t) = map id (List.filter is_item (descendants t)).
Proof. unfold flags. rewrite map_map. reflexivity. Qed.

(** An [li] is not a candidate, so hiding the parent [li] changes no flag. *)
Lemma li_not_candidate t p :
  wf t -> In p (elements t) -> tag p = "li" -> ~ In (id p) (map fst (flags t)).
Proof.
  intros Hwf Hp Htag. rewrite flags_ids. intros Hin.
  apply in_map_iff in Hin as (e & He & Hin).
  apply filter_In in Hin as [Hin Hitem].
  apply descendants_incl in Hin.
  assert (e = p) by (now apply (wf_same_id t)). subst e.
  unfold is_item in Hitem. rewrite Htag in Hitem. discriminate.
Qed.

Lemma flags_toggleItem k b t :
  wf t -> flags (toggleItem k b t) = map (set_flag k b) (flags t).
Proof.
  intros Hwf. unfold toggleItem.
  destruct (parentElement k t) as [p|] eqn:P; [|apply flags_toggleAttribute].
  case_bool_decide as Htag; [|apply flags_toggleAttribute].
  rewrite flags_toggleAttribute. f_equal.
  rewrite flags_toggleAttribute. apply map_set_flag_absent.
  apply li_not_candidate; [exact Hwf| |exact Htag].
  now apply parentElement_In in P.
Qed.

Lemma ids_toggleItem k b t : ids (toggleItem k b t) = ids t.
Proof.
  unfold toggleItem, toggleAttribute.
  destruct (parentElement k t) as [p|]; [|apply ids_update].
  case_bool_decide; now rewrite !ids_update.
Qed.

Lemma ids_enhance_item lim i k t : ids (enhance_item lim i k t) = ids t.
Proof.
  unfold enhance_item, setAttribute. now rewrite ids_toggleItem, !ids_update.
Qed.

Lemma flags_enhance_item lim i k t :
  wf t ->
  flags (enhance_item lim i k t) = map (set_flag k (lim <=? i)) (flags t).
Proof.
  intros Hwf. unfold enhance_item.
  rewrite flags_toggleItem.
  - now rewrite !flags_setAttribute.
  - unfold setAttribute. now repeat apply wf_update.
Qed.

(** The item loop seen on the flags alone. *)
Fixpoint relabel (lim i : nat) (items : list nat) (l : list (nat * bool))
    : list (nat * bool) :=
  match items with
  | [] => l
  | k :: r => relabel lim (S i) r (map (set_flag k (lim <=? i)) l)
  end.

Lemma ids_item_loop lim i items t : ids (item_loop lim i items t) = ids t.
Proof.
  revert i t. induction items as [|k r IH]; intros i t; simpl; [reflexivity|].
  now rewrite IH, ids_enhance_item.
Qed.

Lemma flags_item_loop lim i items t :
  wf t -> flags (item_loop lim i items t) = relabel lim i items (flags t).
Proof.
  revert i t. induction items as [|k r IH]; intros i t Hwf; simpl; [reflexivity|].
  rewrite IH.
  - now rewrite flags_enhance_item.
  - unfold wf. now rewrite ids_enhance_item.
Qed.

(** Each flag after the loop: set by the turn of the loop that names the
    candidate, untouched when none does. *)
Definition relabelled (lim i : nat) (items : list nat) (x : nat * bool)
    : nat * bool :=
  (fst x, match index_in (fst x) items with
          | Some p => lim <=? i + p
          | None => snd x
          end).

Lemma index_in_None k l : ~ In k l -> index_in k l = None.
Proof.
  induction l as [|j r IH]; simpl; intros H; [reflexivity|].
  destruct (j =? k) eqn:E; [apply Nat.eqb_eq in E; tauto|].
  rewrite IH; [reflexivity|tauto].
Qed.


Lemma relabel_pointwise lim i items l :
  NoDup items -> relabel lim i items l = map (relabelled lim i items) l.
Proof.
  revert i l. induction items as [|k r IH]; intros i l Hnd; simpl.
  - rewrite <- (map_id l) at 1. apply map_ext. now intros [j h].
  - apply NoDup_cons in Hnd as [Hk Hnd]. rewrite IH by exact Hnd.
    rewrite map_map. apply map_ext. intros [j h].
    unfold relabelled, set_flag. simpl. f_equal.
    rewrite Nat.eqb_sym. destruct (k =? j) eqn:E.
    + apply Nat.eqb_eq in E. subst j.
      rewrite index_in_None by (now rewrite <- list_elem_of_In).
      now rewrite Nat.add_0_r.
    + destruct (index_in j r) as [p|]; simpl; [|reflexivity].
      now rewrite Nat.add_succ_r.
Qed.

Definition vis (x : nat * bool) : bool := negb (snd x).

Definition vis_ids (l : list (nat * bool)) : list nat :=
  map fst (List.filter vis l).

Lemma index_in_middle k pre r :
  ~ In k pre -> index_in k (pre ++ k :: r) = Some (length pre).
Proof.
  induction pre as [|j pre IH]; simpl; intros H.
  - now rewrite Nat.eqb_refl.
  - destruct (j =? k) eqn:E; [apply Nat.eqb_eq in E; tauto|].
    rewrite IH; [reflexivity|tauto].
Qed.

(** How many candidates the loop leaves visible, when it runs over the
    visible ones in order: those whose position is below the limit. *)
Lemma count_relabelled lim pre l :
  NoDup (pre ++ map fst l) ->
  length (List.filter vis (map (relabelled lim 0 (pre ++ vis_ids l)) l))
  = Nat.min (length (vis_ids l)) (lim - length pre).
Proof.
  revert pre. induction l as [|[j h] l IH]; intros pre Hnd; simpl.
  - reflexivity.
  - assert (Hj : ~ In j pre /\ ~ In j (map fst l)).
    { apply NoDup_app in Hnd as (_ & Hd & Hl). simpl in *.
      apply NoDup_cons in Hl as [Hjl _]. split.
      - intros Hp. apply (Hd j); [now apply list_elem_of_In|]. now left.
      - now rewrite <- list_elem_of_In. }
    destruct Hj as [Hjp Hjl].
    destruct h; unfold vis_ids; simpl.
    + (* hidden before: no turn of the loop names it *)
      fold (vis_ids l). unfold relabelled at 1. simpl.
      rewrite index_in_None.
      2:{ intros Hin. apply in_app_or in Hin as [Hin|Hin]; [tauto|].
          apply Hjl. unfold vis_ids in Hin. apply in_map_iff in Hin as (x & <- & Hx).
          apply filter_In in Hx as [Hx _]. now apply in_map. }
      simpl. apply IH.
      apply NoDup_app in Hnd as (Hp & Hd & Hl). apply NoDup_app.
      split; [exact Hp|]. split.
      * intros x Hx Hxl. apply (Hd x Hx). now right.
      * now apply NoDup_cons in Hl as [_ Hl].
    + (* visible before: its turn is the one at position [length pre] *)
      fold (vis_ids l). unfold relabelled at 1. simpl.
      rewrite index_in_middle by exact Hjp. simpl.
      assert (E : pre ++ j :: vis_ids l = (pre ++ [j]) ++ vis_ids l)
        by (now rewrite <- app_assoc).
      rewrite E. specialize (IH (pre ++ [j])).
      rewrite length_app in IH. simpl in IH.
      assert (Hnd' : NoDup ((pre ++ [j]) ++ map fst l))
        by (now rewrite <- app_assoc).
      specialize (IH Hnd').
      destruct (lim <=? length pre) eqn:L; simpl.
      * apply Nat.leb_le in L. rewrite IH.
        destruct (lim - length pre) eqn:D; lia.
      * apply Nat.leb_gt in L. rewrite IH.
        destruct (lim - length pre) eqn:D; lia.
Qed.

Lemma visible_items_flags t : visible_items t = vis_ids (flags t).
Proof.
  unfold visible_items, querySelectorAll, vis_ids, flags.
  induction (descendants t) as [|e l IH]; simpl; [reflexivity|].
  unfold visible_item at 1. destruct (is_item e); simpl; [|exact IH].
  unfold vis at 1. simpl. destruct (hasAttribute "hidden" e); simpl; [exact IH|].
  now rewrite IH.
Qed.

Lemma NoDup_map_filter {A : Type} (g : A -> nat) (p : A -> bool) (l : list A) :
  NoDup (map g l) -> NoDup (map g (List.filter p l)).
Proof.
  induction l as [|x l IH]; simpl; intros H; [constructor|].
  apply NoDup_cons in H as [Hx Hl]. destruct (p x); simpl; [|now apply IH].
  apply NoDup_cons. split; [|now apply IH].
  rewrite list_elem_of_In in *. intros Hin. apply Hx.
  apply in_map_iff in Hin as (y & <- & Hy). apply filter_In in Hy as [Hy _].
  now apply in_map.
Qed.

Lemma wf_descendants t : wf t -> NoDup (map id (descendants t)).
Proof.
  unfold wf, ids. destruct t as [s|e ks]; simpl; [constructor|].
  intros H. now apply NoDup_cons in H as [_ H].
Qed.

Lemma NoDup_flags t : wf t -> NoDup (map fst (flags t)).
Proof.
  intros H. rewrite flags_ids. now apply NoDup_map_filter, wf_descendants.
Qed.

Lemma NoDup_vis_ids (l : list (nat * bool)) :
  NoDup (map fst l) -> NoDup (vis_ids l).
Proof. apply NoDup_map_filter. Qed.

Lemma NoDup_visible_items t : wf t -> NoDup (visible_items t).
Proof.
  intros H. rewrite visible_items_flags. now apply NoDup_vis_ids, NoDup_flags.
Qed.

(** The heart of the limit: after the loop has run over the visible
    candidates of the very tree it works on, [min lim N] of them are left. *)
Lemma visible_after_item_loop lim t :
  wf t ->
  length (visible_items (item_loop lim 0 (visible_items t) t))
  = Nat.min (length (visible_items t)) lim.
Proof.
  intros Hwf. rewrite (visible_items_flags (item_loop _ _ _ _)).
  rewrite flags_item_loop by exact Hwf.
  rewrite relabel_pointwise by (now apply NoDup_visible_items).
  unfold vis_ids at 1. rewrite length_map.
  rewrite visible_items_flags.
  pose proof (count_relabelled lim [] (flags t)) as C. simpl in C.
  rewrite Nat.sub_0_r in C. apply C. now apply NoDup_flags.
Qed.

End FlagFacts.

(** ** Removing the markers *)

Module UnmarkFacts.
Import Dom Suggest DomFacts StrFacts.

Lemma elements_join_text l :
  flat_map elements (join_text l) = flat_map elements l.
Proof.
  induction l as [|[s|e ks] l IH]; simpl; [reflexivity| |now rewrite IH].
  destruct (join_text l) as [|[s'|e' ks'] r] eqn:J; simpl in *.
  - destruct (Str.truthy s); simpl; exact IH.
  - exact IH.
  - destruct (Str.truthy s); simpl; exact IH.
Qed.

Lemma elements_normalize n : elements (normalize n) = elements n.
Proof.
  induction n as [s|e ks IH] using node_ind; simpl; [reflexivity|].
  f_equal. rewrite elements_join_text.
  induction IH as [|x l Hx _ IHl]; simpl; [reflexivity|].
  now rewrite Hx, IHl.
Qed.

Lemma truthy_false s : Str.truthy s = false -> s = "".
Proof. now destruct s. Qed.

Lemma text_join_text l :
  Str.concat (map textContent (join_text l)) = Str.concat (map textContent l).
Proof.
  induction l as [|[s|e ks] l IH]; simpl; [reflexivity| |now rewrite IH].
  destruct (join_text l) as [|[s'|e' ks'] r] eqn:J; simpl in *.
  - destruct (Str.truthy s) eqn:T; simpl; [now rewrite IH|].
    apply truthy_false in T. subst s. exact IH.
  - rewrite <- IH. now rewrite append_assoc.
  - destruct (Str.truthy s) eqn:T; simpl; [now rewrite IH|].
    apply truthy_false in T. subst s. exact IH.
Qed.

Lemma textContent_normalize n : textContent (normalize n) = textContent n.
Proof.
  induction n as [s|e ks IH] using node_ind; simpl; [reflexivity|].
  rewrite text_join_text, map_map. f_equal.
  apply map_ext_Forall. exact IH.
Qed.

Lemma is_text_join_text l :
  forallb is_text l = true -> forallb is_text (join_text l) = true.
Proof.
  induction l as [|[s|e ks] l IH]; simpl; [easy| |easy].
  intros H. specialize (IH H).
  destruct (join_text l) as [|[s'|e' ks'] r] eqn:J; simpl in *.
  - now destruct (Str.truthy s).
  - exact IH.
  - discriminate.
Qed.

Lemma flat_join_text l :
  forallb marks_flat l = true -> forallb marks_flat (join_text l) = true.
Proof.
  induction l as [|[s|e ks] l IH]; simpl; [easy| |].
  - intros H. specialize (IH H).
    destruct (join_text l) as [|[s'|e' ks'] r] eqn:J; simpl in *.
    + now destruct (Str.truthy s).
    + exact IH.
    + destruct (Str.truthy s); simpl; exact IH.
  - intros H. apply andb_prop in H as [H1 H2].
    apply andb_true_intro. split; [exact H1|now apply IH].
Qed.

Lemma is_text_map_normalize l :
  forallb is_text l = true -> forallb is_text (map normalize l) = true.
Proof.
  induction l as [|[s|e ks] l IH]; simpl; [easy|exact IH|easy].
Qed.

Lemma marks_flat_normalize n :
  marks_flat n = true -> marks_flat (normalize n) = true.
Proof.
  induction n as [s|e ks IH] using node_ind; simpl; [easy|].
  intros H. apply andb_prop in H as [H1 H2].
  apply andb_true_intro. split.
  - destruct (is_mark e); [|reflexivity].
    now apply is_text_join_text, is_text_map_normalize.
  - apply flat_join_text. clear H1.
    induction IH as [|x l Hx _ IHl]; simpl in *; [reflexivity|].
    apply andb_prop in H2 as [Hx2 Hl2].
    apply andb_true_intro. split; [now apply Hx|now apply IHl].
Qed.

(** What one turn of the loop does to the elements below the root: one
    marker goes, with what it holds. *)
Definition one_mark_less (before after : list element) (flat : bool) : Prop :=
  exists a m seg b,
    before = a ++ m :: seg ++ b /\ after = a ++ b /\ is_mark m = true
    /\ (flat = true -> seg = []).

Lemma elements_text_only ks :
  forallb is_text ks = true -> flat_map elements ks = [].
Proof.
  induction ks as [|[s|e l] ks IH]; simpl; [easy|exact IH|easy].
Qed.

(** What a turn of the loop is known to do, stated for one node. *)
Ltac reassoc :=
  repeat (progress (rewrite <- ?app_assoc; simpl)); reflexivity.

Definition unmark_ok (k : node) : Prop :=
  forall k', unmark_first k = Some k' ->
    (exists e l l', k = Elem e l /\ k' = Elem e l')
    /\ one_mark_less (descendants k) (descendants k') (marks_flat k)
    /\ textContent k' = textContent k
    /\ (marks_flat k = true -> marks_flat k' = true).

Lemma unmark_kids_spec ks d ks' :
  Forall unmark_ok ks ->
  unmark_kids unmark_first ks = Some (d, ks') ->
  one_mark_less (flat_map elements ks) (flat_map elements ks')
                (forallb marks_flat ks)
  /\ Str.concat (map textContent ks') = Str.concat (map textContent ks)
  /\ (forallb marks_flat ks = true -> forallb marks_flat ks' = true)
  /\ (forallb is_text ks = true -> False).
Proof.
  intros IH. revert d ks'.
  induction IH as [|k r Hk _ IHr]; intros d ks'; simpl; [discriminate|].
  destruct (is_mark_node k) eqn:M.
  - (* the first sibling is the marker *)
    intros H. injection H as <- <-.
    destruct k as [s|e l]; [discriminate|]. simpl in M.
    split; [|split; [|split]].
    + exists [], e, (flat_map elements l), (flat_map elements r).
      split; [reflexivity|]. split; [reflexivity|]. split; [exact M|].
      simpl. intros F. apply andb_prop in F as [F _].
      apply andb_prop in F as [F _].
      rewrite M in F. now apply elements_text_only.
    + reflexivity.
    + simpl. intros F. apply andb_prop in F as [_ F]. exact F.
    + discriminate.
  - destruct (unmark_first k) as [k'|] eqn:U.
    + (* the marker is inside the first sibling *)
      intros H. injection H as <- <-.
      destruct (Hk k' U)
        as ((e & l & l' & -> & ->) & (a & m & seg & b & E1 & E2 & Hm & Hf)
            & Ht & Hfl).
      split; [|split; [|split]].
      * exists (e :: a), m, seg, (b ++ flat_map elements r).
        unfold descendants in E1, E2. simpl in E1, E2. simpl.
        rewrite E1, E2. split; [|split; [|split]].
        -- reassoc.
        -- reassoc.
        -- exact Hm.
        -- intros F. apply andb_prop in F as [F _]. now apply Hf.
      * simpl in *. now rewrite Ht.
      * intros F. apply andb_prop in F as [F1 F2]. simpl.
        apply andb_true_intro. split; [now apply Hfl|exact F2].
      * discriminate.
    + destruct (unmark_kids unmark_first r) as [[d' r']|] eqn:R; [|discriminate].
      intros H. injection H as <- <-.
      destruct (IHr d' r' eq_refl)
        as ((a & m & seg & b & E1 & E2 & Hm & Hf) & Ht & Hfl & Htx).
      split; [|split; [|split]].
      * exists (elements k ++ a), m, seg, b. simpl. rewrite E1, E2.
        split; [|split; [|split]].
        -- reassoc.
        -- reassoc.
        -- exact Hm.
        -- intros F. apply andb_prop in F as [_ F]. now apply Hf.
      * simpl in *. now rewrite Ht.
      * intros F. apply andb_prop in F as [F1 F2]. simpl.
        apply andb_true_intro. split; [exact F1|now apply Hfl].
      * intros F. apply andb_prop in F as [_ F]. now apply Htx.
Qed.

Lemma map_normalize_elements l :
  flat_map elements (map normalize l) = flat_map elements l.
Proof.
  induction l as [|x l IH]; simpl; [reflexivity|].
  now rewrite elements_normalize, IH.
Qed.

Lemma map_normalize_text l :
  Str.concat (map textContent (map normalize l))
  = Str.concat (map textContent l).
Proof.
  induction l as [|x l IH]; simpl; [reflexivity|].
  now rewrite textContent_normalize, IH.
Qed.

Lemma unmark_first_spec n : unmark_ok n.
Proof.
  induction n as [s|e ks IH] using node_ind; intros n'; simpl; [discriminate|].
  destruct (unmark_kids unmark_first ks) as [[d ks']|] eqn:U; [|discriminate].
  destruct (unmark_kids_spec ks d ks' IH U) as (Hone & Ht & Hfl & Htx).
  assert (Hflat : marks_flat (Elem e ks) = true -> marks_flat (Elem e ks') = true).
  { simpl. intros F. apply andb_prop in F as [F1 F2].
    apply andb_true_intro. split; [|now apply Hfl].
    destruct (is_mark e); [|reflexivity]. exfalso. now apply Htx. }
  assert (Hone' : one_mark_less (flat_map elements ks) (flat_map elements ks')
                    (marks_flat (Elem e ks))).
  { destruct Hone as (a & m & seg & b & E1 & E2 & Hm & Hf).
    exists a, m, seg, b. repeat split; try assumption.
    simpl. intros F. apply andb_prop in F as [_ F]. now apply Hf. }
  destruct d; intros H; injection H as <-.
  - split; [|split; [|split]].
    + now exists e, ks, (join_text (map normalize ks')).
    + unfold descendants. simpl.
      now rewrite elements_join_text, map_normalize_elements.
    + simpl. now rewrite text_join_text, map_normalize_text.
    + intros F. apply (marks_flat_normalize (Elem e ks')). now apply Hflat.
  - split; [|split; [|split]].
    + now exists e, ks, ks'.
    + exact Hone'.
    + simpl. now rewrite Ht.
    + exact Hflat.
Qed.



(** Reasoning about the loop, turn by turn. *)
Lemma unmark_loop_ind (P : node -> node -> Prop) :
  (forall n, P n n) ->
  (forall n n' n'', unmark_first n = Some n' -> P n' n'' -> P n n'') ->
  forall fuel n, P n (unmark_loop fuel n).
Proof.
  intros Hrefl Hstep. induction fuel as [|fuel IH]; intros n; simpl.
  - apply Hrefl.
  - destruct (unmark_first n) as [n'|] eqn:U; [|apply Hrefl].
    eapply Hstep; [exact U|apply IH].
Qed.





(** The root element, and so the widget's own attributes, stay. *)
Definition same_root (a b : node) : Prop :=
  match a, b with
  | Text s, Text s' => s = s'
  | Elem e _, Elem e' _ => e = e'
  | _, _ => False
  end.

Lemma same_root_refl a : same_root a a.
Proof. now destruct a. Qed.

Lemma same_root_trans a b c : same_root a b -> same_root b c -> same_root a c.
Proof.
  destruct a, b, c; simpl; try easy; intros; congruence.
Qed.

Lemma same_root_remove_marks n : same_root n (remove_marks n).
Proof.
  unfold remove_marks. apply (unmark_loop_ind same_root).
  - apply same_root_refl.
  - intros a a' a'' U H. eapply same_root_trans; [|exact H].
    destruct (unmark_first_spec a a' U) as ((e & l & l' & -> & ->) & _).
    reflexivity.
Qed.

Lemma marks_flat_remove_marks n :
  marks_flat n = true -> marks_flat (remove_marks n) = true.
Proof.
  unfold remove_marks.
  apply (unmark_loop_ind (fun a b => marks_flat a = true -> marks_flat b = true)).
  - easy.
  - intros a a' a'' U H F. apply H.
    destruct (unmark_first_spec a a' U) as (_ & _ & _ & Hf). now apply Hf.
Qed.







End UnmarkFacts.

(** ** Putting the markers in *)

Module MarkFacts.
Import Dom Suggest DomFacts StrFacts UnmarkFacts.




(** Every hit is an occurrence of the needle, and the hits come in
    increasing order without overlap. *)
Lemma greedy_occurrence haystack needle start l h :
  greedy haystack needle start l -> In h l ->
  substring h (String.length needle) haystack = needle /\ start <= h.
Proof.
  induction 1 as [start E|start m l E _ IH]; simpl; [easy|].
  intros [<-|Hin].
  - split; [now apply index_correct1 in E|now apply indexOf_ge in E].
  - destruct (IH Hin) as [Ho Hge]. split; [exact Ho|].
    apply indexOf_ge in E. lia.
Qed.

Lemma greedy_sorted haystack needle start l :
  greedy haystack needle start l -> StronglySorted le l.
Proof.
  induction 1 as [start E|start m l E G IH]; constructor; [exact IH|].
  apply List.Forall_forall. intros x Hx.
  destruct (greedy_occurrence _ _ _ _ _ G Hx) as [_ Hge]. lia.
Qed.







Lemma is_mark_new fresh : is_mark (mkElement fresh "mark" ∅) = true.
Proof. reflexivity. Qed.







End MarkFacts.

(** ** The mutation pass *)

Module MutationFacts.
Import Dom Suggest DomFacts StrFacts FrameFacts FlagFacts UnmarkFacts MarkFacts.

Section Widget.
Context {json : Type}.
Implicit Types st : @state json.

Definition root_attribute (name : string) (n : node) : option string :=
  match n with
  | Elem e _ => getAttribute name e
  | Text _ => None
  end.

Lemma attribute_set_tree name n st :
  is_text n = false -> attribute name (set_tree n st) = root_attribute name n.
Proof. now destruct n. Qed.

Lemma highlight_ext st st' :
  attribute "highlight" st = attribute "highlight" st' ->
  highlight st = highlight st'.
Proof. unfold highlight. now intros ->. Qed.

Lemma limit_ext st st' :
  attribute "limit" st = attribute "limit" st' -> limit st = limit st'.
Proof. unfold limit. now intros ->. Qed.

Lemma attribute_tree name st : attribute name st = root_attribute name (tree st).
Proof. reflexivity. Qed.

(** The loops leave the widget element in place, and write none of the
    attributes the getters read. *)
Lemma is_text_update k f n : is_text (update k f n) = is_text n.
Proof. now destruct n. Qed.

Lemma root_attribute_update name k f n :
  (forall a, f a !! name = a !! name) ->
  root_attribute name (update k f n) = root_attribute name n.
Proof.
  intros Hf. destruct n as [s|e ks]; simpl; [reflexivity|].
  destruct (id e =? k); [|reflexivity]. unfold getAttribute. simpl. apply Hf.
Qed.

Lemma toggle_attr_other name b a other :
  other <> name -> toggle_attr name b a !! other = a !! other.
Proof.
  intros Hne. unfold toggle_attr. destruct b.
  - destruct (a !! name); [reflexivity|]. now rewrite lookup_insert_ne.
  - now rewrite lookup_delete_ne.
Qed.

Lemma is_text_toggleItem k b n : is_text (toggleItem k b n) = is_text n.
Proof.
  unfold toggleItem, toggleAttribute.
  destruct (parentElement k n) as [p|]; [|apply is_text_update].
  case_bool_decide; now rewrite !is_text_update.
Qed.

Lemma root_attribute_toggleItem name k b n :
  name <> "hidden" ->
  root_attribute name (toggleItem k b n) = root_attribute name n.
Proof.
  intros Hne. unfold toggleItem, toggleAttribute.
  assert (H : forall j m, root_attribute name (update j (toggle_attr "hidden" b) m)
                          = root_attribute name m).
  { intros j m. apply root_attribute_update. intros a.
    now apply toggle_attr_other. }
  destruct (parentElement k n) as [p|]; [|apply H].
  case_bool_decide; now rewrite !H.
Qed.

Definition kept (name : string) : Prop :=
  name <> "hidden" /\ name <> "aria-label" /\ name <> "tabindex"
  /\ name <> "type".

Lemma is_text_enhance_item lim i k n :
  is_text (enhance_item lim i k n) = is_text n.
Proof.
  unfold enhance_item, setAttribute.
  now rewrite is_text_toggleItem, !is_text_update.
Qed.

Lemma root_attribute_enhance_item name lim i k n :
  kept name ->
  root_attribute name (enhance_item lim i k n) = root_attribute name n.
Proof.
  intros (H1 & H2 & H3 & H4). unfold enhance_item, setAttribute.
  rewrite root_attribute_toggleItem by exact H1.
  rewrite !root_attribute_update; [reflexivity| | |];
    intros a; now rewrite lookup_insert_ne.
Qed.

Lemma is_text_item_loop lim i items n :
  is_text (item_loop lim i items n) = is_text n.
Proof.
  revert i n. induction items as [|k r IH]; intros i n; simpl; [reflexivity|].
  now rewrite IH, is_text_enhance_item.
Qed.

Lemma root_attribute_item_loop name lim i items n :
  kept name ->
  root_attribute name (item_loop lim i items n) = root_attribute name n.
Proof.
  intros Hk. revert i n.
  induction items as [|k r IH]; intros i n; simpl; [reflexivity|].
  now rewrite IH, root_attribute_enhance_item.
Qed.

Lemma same_root_is_text a b : same_root a b -> is_text b = is_text a.
Proof. destruct a, b; simpl; easy. Qed.

Lemma same_root_attribute name a b :
  same_root a b -> root_attribute name b = root_attribute name a.
Proof. destruct a, b; simpl; try easy. now intros ->. Qed.

(** The tree a pass leaves behind, with the state plumbing taken out. *)
Definition pass st : node :=
  let t1 :=
    match highlight st with
    | Keep => tree st
    | _ => remove_marks (tree st)
    end in
  let t2 := item_loop (effective_limit st) 0 (visible_items (tree st)) t1 in
  if Str.truthy (Str.trim (Str.toLowerCase (input_value (doc st))))
     && bool_decide (highlight st = On) && negb (IS_IE11 (env st))
  then mark_hits (Str.trim (Str.toLowerCase (input_value (doc st)))) t2
  else t2.

Lemma is_text_mark_hits needle n : is_text (mark_hits needle n) = is_text n.
Proof. now destruct n. Qed.

Lemma is_text_pass st : is_text (pass st) = false.
Proof.
  unfold pass.
  assert (H1 : is_text (match highlight st with
                        | Keep => tree st
                        | _ => remove_marks (tree st)
                        end) = false).
  { destruct (highlight st); try reflexivity;
      now rewrite (same_root_is_text _ _ (same_root_remove_marks (tree st))). }
  destruct (_ && _ && _);
    now rewrite ?is_text_mark_hits, is_text_item_loop, H1.
Qed.

Lemma onMutation_tree st o :
  _observer (wdg st) = Some o -> tree (onMutation st) = pass st.
Proof.
  intros Ho. unfold onMutation. rewrite Ho.
  set (st0 := input_getter st).
  assert (Hl : limit st0 = limit st)
    by (apply limit_ext, attribute_input_getter).
  assert (Hh : highlight st0 = highlight st)
    by (apply highlight_ext, attribute_input_getter).
  assert (Ht : tree st0 = tree st) by apply tree_input_getter.
  rewrite Hl, Hh, Ht.
  unfold visible_items. fold (visible_items (tree st)).
  unfold pass. fold (effective_limit st). unfold effective_limit.
  set (lim := match limit st with
              | Some l => _ | None => _ end).
  set (st1 := match highlight st with Keep => st0 | _ => _ end).
  assert (T1 : tree st1 = match highlight st with
                          | Keep => tree st
                          | _ => remove_marks (tree st)
                          end).
  { subst st1. destruct (highlight st); try exact Ht;
      apply tree_set_tree;
      now rewrite (same_root_is_text _ _ (same_root_remove_marks (tree st))). }
  assert (A1 : attribute "highlight" st1 = attribute "highlight" st).
  { rewrite (attribute_tree _ st1), T1, (attribute_tree _ st).
    destruct (highlight st); try reflexivity;
      apply same_root_attribute, same_root_remove_marks. }
  assert (D1 : doc st1 = doc st /\ env st1 = env st).
  { subst st1. unfold st0. destruct (highlight st);
      now rewrite ?doc_set_tree, ?env_set_tree, doc_input_getter,
                  env_input_getter. }
  destruct D1 as [D1 E1].
  set (t2 := item_loop lim 0 (visible_items (tree st)) (tree st1)).
  assert (X2 : is_text t2 = false).
  { subst t2. rewrite is_text_item_loop. reflexivity. }
  assert (H2 : highlight (set_tree t2 st1) = highlight st).
  { apply highlight_ext. rewrite attribute_set_tree by exact X2.
    subst t2. rewrite root_attribute_item_loop by (repeat split; discriminate).
    rewrite <- attribute_tree. exact A1. }
  assert (D0 : doc st0 = doc st) by apply doc_input_getter.
  rewrite D0, H2, env_set_tree, E1.
  destruct (_ && _ && _).
  - rewrite tree_set_tree.
    + rewrite tree_set_tree by exact X2. subst t2. now rewrite T1.
    + rewrite is_text_mark_hits. now rewrite tree_set_tree.
  - rewrite tree_set_tree by exact X2. subst t2. now rewrite T1.
Qed.









(** The loop renames nothing: markers stay markers, the rest stays the
    rest. *)
Lemma tags_update k f t :
  map tag (descendants (update k f t)) = map tag (descendants t).
Proof.
  rewrite descendants_update, map_map. apply map_ext. intros e.
  apply tag_touch.
Qed.

Lemma tags_toggleItem k b t :
  map tag (descendants (toggleItem k b t)) = map tag (descendants t).
Proof.
  unfold toggleItem, toggleAttribute.
  destruct (parentElement k t) as [p|]; [|apply tags_update].
  case_bool_decide; now rewrite !tags_update.
Qed.

Lemma tags_item_loop lim i items t :
  map tag (descendants (item_loop lim i items t)) = map tag (descendants t).
Proof.
  revert i t. induction items as [|k r IH]; intros i t; simpl; [reflexivity|].
  rewrite IH. unfold enhance_item, setAttribute.
  now rewrite tags_toggleItem, !tags_update.
Qed.









End Widget.
End MutationFacts.

(** ** Highlighting through a pass *)

Module HighlightFacts.
Import Dom Suggest DomFacts StrFacts FrameFacts FlagFacts UnmarkFacts MarkFacts MutationFacts.






Lemma highlighted_update k f n : highlighted (update k f n) = highlighted n.
Proof.
  destruct n as [s|e ks]; [reflexivity|]. unfold highlighted. simpl.
  induction ks as [|x ks IH]; simpl; [reflexivity|].
  now rewrite marked_update, IH.
Qed.

Lemma highlighted_toggleItem k b n :
  highlighted (toggleItem k b n) = highlighted n.
Proof.
  unfold toggleItem, toggleAttribute.
  destruct (parentElement k n) as [p|]; [|apply highlighted_update].
  case_bool_decide; now rewrite !highlighted_update.
Qed.

Lemma highlighted_item_loop lim i items n :
  highlighted (item_loop lim i items n) = highlighted n.
Proof.
  revert i n. induction items as [|k r IH]; intros i n; simpl; [reflexivity|].
  rewrite IH. unfold enhance_item, setAttribute.
  now rewrite highlighted_toggleItem, !highlighted_update.
Qed.

Lemma count_marks_tags t t' :
  map tag (descendants t) = map tag (descendants t') ->
  count_marks t = count_marks t'.
Proof.
  unfold count_marks. generalize (descendants t) (descendants t').
  induction l as [|x l IH]; intros [|y l'] E; simpl in E; try discriminate;
    [reflexivity|].
  injection E as Exy E. simpl.
  assert (M : is_mark x = is_mark y) by (unfold is_mark; now rewrite Exy).
  rewrite M. destruct (is_mark y); simpl; now rewrite (IH l' E).
Qed.

Lemma count_marks_item_loop lim i items n :
  count_marks (item_loop lim i items n) = count_marks n.
Proof. apply count_marks_tags, tags_item_loop. Qed.


(** Without markers nothing is highlighted. *)
Lemma marked_no_marks n :
  Forall (fun e => is_mark e = false) (elements n) ->
  marked false n = replicate (String.length (textContent n)) false.
Proof.
  induction n as [s|e ks IH] using node_ind; simpl; [reflexivity|].
  intros H. apply Forall_cons in H as [He H]. rewrite He. simpl.
  induction IH as [|x l Hx _ IHl]; simpl; [reflexivity|].
  simpl in H. apply Forall_app in H as [H1 H2].
  rewrite Hx by exact H1. rewrite IHl by exact H2.
  now rewrite length_append, replicate_add.
Qed.

Lemma highlighted_no_marks e ks :
  Forall (fun x => is_mark x = false) (descendants (Elem e ks)) ->
  highlighted (Elem e ks)
  = replicate (String.length (textContent (Elem e ks))) false.
Proof.
  unfold highlighted, descendants. simpl.
  induction ks as [|x l IH]; simpl; [reflexivity|].
  intros H. apply Forall_app in H as [H1 H2].
  rewrite marked_no_marks by exact H1. rewrite IH by exact H2.
  now rewrite length_append, replicate_add.
Qed.

Section Widget.
Context {json : Type}.
Implicit Types st : @state json.

Lemma observer_onMutation st :
  _observer (wdg (onMutation st)) = _observer (wdg st).
Proof.
  unfold onMutation. destruct (_observer (wdg st)) as [o|] eqn:Ho; [|exact Ho].
  destruct (_ && _ && _); rewrite ?observer_set_tree;
    destruct (highlight (input_getter st));
    now rewrite ?observer_set_tree, observer_input_getter.
Qed.

Lemma root_attribute_mark_hits name needle n :
  root_attribute name (mark_hits needle n) = root_attribute name n.
Proof. now destruct n. Qed.

Lemma root_attribute_pass name st :
  kept name -> root_attribute name (pass st) = root_attribute name (tree st).
Proof.
  intros Hk. unfold pass.
  assert (H1 : root_attribute name
                 (match highlight st with
                  | Keep => tree st
                  | _ => remove_marks (tree st)
                  end) = root_attribute name (tree st)).
  { destruct (highlight st); try reflexivity;
      apply same_root_attribute, same_root_remove_marks. }
  destruct (_ && _ && _);
    now rewrite ?root_attribute_mark_hits, root_attribute_item_loop, H1.
Qed.







End Widget.

End HighlightFacts.

(** ** What a pass makes focusable *)

Module EnhanceFacts.
Import Dom Suggest DomFacts StrFacts FrameFacts FlagFacts UnmarkFacts MarkFacts.
Import MutationFacts HighlightFacts.


Lemma filter_none {A : Type} (P : A -> bool) l :
  (forall u, In u l -> P u = false) -> List.filter P l = [].
Proof.
  induction l as [|a l IH]; intros H; simpl; [reflexivity|].
  rewrite (H a) by now left. apply IH. intros u Hu. apply H. now right.
Qed.











Section Widget.
Context {json : Type}.
Implicit Types st : @state json.






End Widget.

End EnhanceFacts.

(** ** Filtering on input *)

Module FilterFacts.
Import Dom Suggest DomFacts StrFacts FrameFacts FlagFacts MutationFacts.











End FilterFacts.

(** ** Timers and their callbacks *)

Module LoopFacts.
Import Dom Suggest DomFacts StrFacts FrameFacts FlagFacts UnmarkFacts MarkFacts.
Import MutationFacts HighlightFacts.

Section Widget.
Context {json : Type}.
Implicit Types st : @state json.

Lemma doc_onMutation st : doc (onMutation st) = doc st.
Proof.
  unfold onMutation. destruct (_observer (wdg st)); [|reflexivity].
  destruct (_ && _ && _); autorewrite with frame;
    destruct (highlight (input_getter st)); now autorewrite with frame.
Qed.

Lemma env_onMutation st : env (onMutation st) = env st.
Proof.
  unfold onMutation. destruct (_observer (wdg st)); [|reflexivity].
  destruct (_ && _ && _); autorewrite with frame;
    destruct (highlight (input_getter st)); now autorewrite with frame.
Qed.

Lemma xhr_onMutation st : _xhr (wdg (onMutation st)) = _xhr (wdg st).
Proof.
  unfold onMutation. destruct (_observer (wdg st)); [|reflexivity].
  destruct (_ && _ && _); autorewrite with frame;
    destruct (highlight (input_getter st)); now autorewrite with frame.
Qed.

Lemma env_attributeChangedCallback a st :
  env (attributeChangedCallback a st) = env st.
Proof.
  unfold attributeChangedCallback. destruct (_observer (wdg st)); [|reflexivity].
  case_bool_decide; case_bool_decide; rewrite ?env_onMutation;
    now autorewrite with frame.
Qed.

Lemma input_value_attributeChangedCallback a st :
  input_value (doc (attributeChangedCallback a st)) = input_value (doc st).
Proof.
  unfold attributeChangedCallback. destruct (_observer (wdg st)); [|reflexivity].
  case_bool_decide; case_bool_decide; rewrite ?doc_onMutation; simpl;
    now autorewrite with frame.
Qed.

Lemma env_set_hidden v st : env (set_hidden v st) = env st.
Proof.
  unfold set_hidden. destruct (negb _);
    rewrite ?env_attributeChangedCallback; now autorewrite with frame.
Qed.

Lemma input_value_set_hidden v st :
  input_value (doc (set_hidden v st)) = input_value (doc st).
Proof.
  unfold set_hidden. destruct (negb _);
    rewrite ?input_value_attributeChangedCallback; now autorewrite with frame.
Qed.

(** A debounce that expires over an empty input, or after detachment, does
    nothing at all. *)
Lemma onAjaxSend_empty st :
  input_value (doc st) = "" ->
  exists st',
    onAjaxSend st = Ret tt st' /\ env st' = env st /\ doc st' = doc st.
Proof.
  intros H. unfold onAjaxSend. destruct (_observer (wdg st)).
  - rewrite doc_input_getter, H. simpl. eexists. split; [reflexivity|].
    now autorewrite with frame.
  - now exists st.
Qed.

Lemma onAjaxSend_detached st :
  _observer (wdg st) = None -> onAjaxSend st = Ret tt st.
Proof. intros H. unfold onAjaxSend. now rewrite H. Qed.

(** With the input empty, whatever timers run leave the network and the
    notifications alone, and none of them throws. *)
Lemma fire_due_empty fuel st :
  input_value (doc st) = "" ->
  exists st',
    fire_due fuel st = Ret tt st'
    /\ network (env st') = network (env st)
    /\ log (env st') = log (env st)
    /\ xhrs (env st') = xhrs (env st)
    /\ input_value (doc st') = "".
Proof.
  revert st. induction fuel as [|fuel IH]; intros st H; cbn [fire_due].
  - now exists st.
  - destruct (next_due st) as [t|]; [|now exists st].
    set (st0 := clearTimeout (Some (tid t)) st).
    assert (H0 : input_value (doc st0) = "") by exact H.
    assert (E0 : network (env st0) = network (env st)
                 /\ log (env st0) = log (env st)
                 /\ xhrs (env st0) = xhrs (env st)) by easy.
    destruct E0 as (N0 & L0 & X0).
    destruct (action t) as [|v|]; cbn [run_callback bind].
    + destruct (IH (onMutation st0)) as (st' & E & N & L & X & V).
      { now rewrite doc_onMutation. }
      exists st'. rewrite env_onMutation in N, L, X.
      split; [exact E|]. now rewrite N, L, X.
    + destruct (IH (set_hidden v st0)) as (st' & E & N & L & X & V).
      { now rewrite input_value_set_hidden. }
      exists st'. rewrite env_set_hidden in N, L, X.
      split; [exact E|]. now rewrite N, L, X.
    + destruct (onAjaxSend_empty st0 H0) as (st1 & E1 & En & Dn).
      rewrite E1. cbn [bind].
      destruct (IH st1) as (st' & E & N & L & X & V).
      { now rewrite Dn. }
      exists st'. rewrite En in N, L, X.
      split; [exact E|]. now rewrite N, L, X.
Qed.





End Widget.
End LoopFacts.

(** ** The debounced fetch *)

Module DebounceFacts.
Import Dom Suggest DomFacts StrFacts FrameFacts FlagFacts UnmarkFacts MarkFacts.
Import MutationFacts HighlightFacts EnhanceFacts LoopFacts.

Section Widget.
Context {json : Type}.
Variable JSON_parse : string -> json + string.
Implicit Types st : @state json.

Lemma ready_ext st st' :
  listeners (doc st') = listeners (doc st) ->
  canceled (doc st') = canceled (doc st) ->
  _observer (wdg st') = _observer (wdg st) ->
  _xhr (wdg st') = _xhr (wdg st) ->
  length (xhrs (env st')) = length (xhrs (env st)) ->
  attribute "ajax" st' = attribute "ajax" st ->
  ready st -> ready st'.
Proof.
  intros Hl Hc Ho Hx Hn Ha (R1 & R2 & R3 & R4 & R5 & R6).
  unfold ready. rewrite Hl, Hc, Ho, Hx, Hn, (ajax_attribute st' st Ha).
  repeat split; assumption.
Qed.

(** The state [onAjax] leaves: the pending debounce cleared, the request
    object aborted and its error message reset, a new debounce set. *)
Definition scheduled (i : nat) st : state :=
  let st0 :=
    on_xhr i (xhr_set_responseError None)
      (on_xhr i xhr_abort (clearTimeout (_xhrTime (wdg st)) st)) in
  set_xhrTime (Some (next_timer (env st0)))
    (snd (setTimeout CbAjaxSend AJAX_DEBOUNCE st0)).

Lemma onAjax_scheduled st i :
  Str.truthy (ajax st) = true -> _xhr (wdg st) = Some i ->
  onAjax st = Ret true (scheduled i st).
Proof.
  intros Ha Hi. unfold onAjax. rewrite Ha. cbn [negb].
  rewrite wdg_clearTimeout, Hi. reflexivity.
Qed.

Lemma onInput_remote (ev : event) st i :
  etarget ev = TInput -> "suggest.filter" ∉ canceled (doc st) ->
  Str.truthy (ajax st) = true -> _xhr (wdg st) = Some i ->
  onInput ev st
  = Ret tt (scheduled i
              (set_log (log (env (input_getter st))
                        ++ [mkNotification "suggest.filter" NoDetail])
                 (input_getter st))).
Proof.
  intros Ht Hc Ha Hi. unfold onInput. rewrite Ht.
  rewrite (bool_decide_eq_true_2 (TInput = TInput)) by reflexivity.
  cbn [negb]. unfold dispatchEvent. rewrite doc_input_getter.
  rewrite bool_decide_eq_false_2 by exact Hc. cbn [negb].
  set (st1 := set_log _ (input_getter st)).
  assert (A : ajax st1 = ajax st)
    by (apply ajax_attribute; subst st1; now autorewrite with frame).
  rewrite (onAjax_scheduled st1 i).
  - reflexivity.
  - now rewrite A.
  - subst st1. now autorewrite with frame.
Qed.

(** What a keystroke does on a widget that is ready. *)
Lemma typing_scheduled (v : string) st i :
  ready st -> _xhr (wdg st) = Some i ->
  step JSON_parse (Typing v) st
  = Ret tt (scheduled i
              (set_log (log (env st)
                        ++ [mkNotification "suggest.filter" NoDetail])
                 (input_getter (set_prevented false (set_input_value v st))))).
Proof.
  intros (R1 & R2 & _ & R4 & R5 & R6) Hi.
  cbn [step]. unfold deliver. cbn [plain etype].
  change (listeners (doc (set_input_value v st))) with (listeners (doc st)).
  rewrite bool_decide_eq_true_2 by exact R1.
  unfold handleEvent.
  cbn [plain ctrlKey altKey metaKey defaultPrevented etype orb].
  rewrite (bool_decide_eq_false_2 ("input" = "focusin")) by discriminate.
  rewrite (bool_decide_eq_false_2 ("input" = "click")) by discriminate.
  rewrite (bool_decide_eq_false_2 ("input" = "keydown")) by discriminate.
  rewrite (bool_decide_eq_true_2 ("input" = "input")) by reflexivity.
  cbn [orb].
  rewrite (onInput_remote _ _ i); [|reflexivity|exact R5|exact R4|exact Hi].
  now crunch.
Qed.

(** A keystroke schedules the debounce, after clearing the one before. *)
Lemma typing_step (v : string) st :
  ready st ->
  exists st1,
    step JSON_parse (Typing v) st = Ret tt st1
    /\ ready st1
    /\ attribute "ajax" st1 = attribute "ajax" st
    /\ input_value (doc st1) = v
    /\ timers (env st1)
       = timers (env (clearTimeout (_xhrTime (wdg st)) st))
         ++ [mkTimer (next_timer (env st)) (now (env st) + AJAX_DEBOUNCE)
               CbAjaxSend]
    /\ _xhrTime (wdg st1) = Some (next_timer (env st))
    /\ next_timer (env st1) = S (next_timer (env st))
    /\ now (env st1) = now (env st)
    /\ network (env st1) = network (env st).
Proof.
  intros Hr. pose proof Hr as (R1 & R2 & (i & Hi & Hlen) & R4 & R5 & R6).
  rewrite (typing_scheduled v st i Hr Hi).
  eexists. split; [reflexivity|].
  unfold scheduled.
  split; [|split; [|split; [|split; [|split; [|split; [|split]]]]]].
  - apply (ready_ext st); try exact Hr; crunch; try reflexivity.
    now rewrite !length_alter.
  - crunch. reflexivity.
  - crunch. reflexivity.
  - crunch. f_equal. apply timers_clearTimeout_ext. now crunch.
  - crunch. reflexivity.
  - crunch. reflexivity.
  - crunch. reflexivity.
  - crunch. reflexivity.
Qed.

(** *** The timer queue *)

(** The choice [next_due] makes, on the queue alone. *)
Definition pick (n : nat) (l : list timer) : option timer :=
  foldr (fun t best =>
           if due t <=? n then
             match best with
             | Some b => if due t <=? due b then Some t else Some b
             | None => Some t
             end
           else best)
        None l.

Lemma next_due_pick st : next_due st = pick (now (env st)) (timers (env st)).
Proof. reflexivity. Qed.

Lemma pick_In n l t : pick n l = Some t -> In t l /\ due t <= n.
Proof.
  revert t. induction l as [|a l IH]; intros t; simpl; [discriminate|].
  destruct (due a <=? n) eqn:Ea.
  - apply Nat.leb_le in Ea. destruct (pick n l) as [b|] eqn:Eb.
    + destruct (due a <=? due b); intros H; injection H as <-.
      * split; [now left|exact Ea].
      * destruct (IH b eq_refl) as [Hin Hd]. split; [now right|exact Hd].
    + intros H. injection H as <-. split; [now left|exact Ea].
  - intros H. destruct (IH t H) as [Hin Hd]. split; [now right|exact Hd].
Qed.

Lemma pick_Some n l t : In t l -> due t <= n -> is_Some (pick n l).
Proof.
  induction l as [|a l IH]; intros Hin Hd; [destruct Hin|]. simpl.
  destruct (due a <=? n) eqn:Ea.
  - destruct (pick n l) as [b|]; [destruct (due a <=? due b)|]; eauto.
  - destruct Hin as [->|Hin]; [|now apply IH].
    apply Nat.leb_gt in Ea. lia.
Qed.

(** [clearTimeout] on the queue. *)
Definition without (i : nat) (l : list timer) : list timer :=
  List.filter (fun t => negb (tid t =? i)) l.

Lemma timers_clear i st :
  timers (env (clearTimeout (Some i) st)) = without i (timers (env st)).
Proof. reflexivity. Qed.

Lemma In_without i l t : In t (without i l) <-> In t l /\ tid t <> i.
Proof.
  unfold without. rewrite filter_In, negb_true_iff, Nat.eqb_neq. reflexivity.
Qed.

Lemma NoDup_without i l : NoDup (map tid l) -> NoDup (map tid (without i l)).
Proof.
  induction l as [|a l IH]; simpl; [trivial|].
  rewrite NoDup_cons. intros [Ha Hl].
  destruct (negb (tid a =? i)); simpl; [|now apply IH].
  apply NoDup_cons. split; [|now apply IH].
  rewrite list_elem_of_In in *. intros Hin. apply Ha.
  apply in_map_iff in Hin as (u & Hu & Hin). apply In_without in Hin as [Hin _].
  apply in_map_iff. now exists u.
Qed.

Lemma length_without l t :
  In t l -> length (without (tid t) l) < length l.
Proof.
  induction l as [|a l IH]; intros Hin; [destruct Hin|]. simpl.
  assert (Hle : length (without (tid t) l) <= length l)
    by apply List.filter_length_le.
  destruct Hin as [->|Hin].
  - rewrite Nat.eqb_refl. simpl. lia.
  - specialize (IH Hin). destruct (negb (tid a =? tid t)); simpl; lia.
Qed.

Lemma tid_unique l t u :
  NoDup (map tid l) -> In t l -> In u l -> tid u = tid t -> u = t.
Proof.
  induction l as [|a l IH]; intros Hnd Ht Hu E; [destruct Ht|].
  simpl in Hnd. apply NoDup_cons in Hnd as [Ha Hl].
  rewrite list_elem_of_In in Ha.
  destruct Ht as [->|Ht], Hu as [->|Hu]; try reflexivity.
  - exfalso. apply Ha. rewrite <- E. now apply in_map.
  - exfalso. apply Ha. rewrite E. now apply in_map.
  - now apply IH.
Qed.

Lemma filter_absorb {A : Type} (P Q : A -> bool) l :
  (forall u, In u l -> P u = true -> Q u = true) ->
  List.filter P (List.filter Q l) = List.filter P l.
Proof.
  induction l as [|a l IH]; intros H; simpl; [reflexivity|].
  assert (Hl : forall u, In u l -> P u = true -> Q u = true)
    by (intros u Hu; apply H; now right).
  destruct (Q a) eqn:Eq; simpl.
  - destruct (P a); now rewrite IH.
  - destruct (P a) eqn:Ep; [|now apply IH].
    rewrite (H a) in Eq; [discriminate|now left|exact Ep].
Qed.

(** Clearing a timer that is not a debounce leaves the debounces. *)
Lemma sends_without_other l t :
  NoDup (map tid l) -> In t l -> is_send t = false ->
  List.filter is_send (without (tid t) l) = List.filter is_send l.
Proof.
  intros Hnd Hin Ht. apply filter_absorb. intros u Hu Hs.
  apply negb_true_iff, Nat.eqb_neq. intros E.
  rewrite (tid_unique l t u Hnd Hin Hu E) in Hs. congruence.
Qed.

(** Clearing the only debounce leaves none. *)
Lemma sends_without_sole l t :
  List.filter is_send l = [t] ->
  List.filter is_send (without (tid t) l) = [].
Proof.
  intros H. apply filter_none. intros u Hu.
  apply In_without in Hu as [Hu Hne].
  destruct (is_send u) eqn:Es; [|reflexivity].
  assert (Hin : In u (List.filter is_send l)) by (now apply filter_In).
  rewrite H in Hin. destruct Hin as [<-|[]]. congruence.
Qed.

(** *** Callbacks other than the debounce *)

(** What the mutation pass and the toggling of the list leave alone. *)
Definition calm st st' : Prop :=
  listeners (doc st') = listeners (doc st)
  /\ canceled (doc st') = canceled (doc st)
  /\ input_value (doc st') = input_value (doc st)
  /\ _observer (wdg st') = _observer (wdg st)
  /\ _xhr (wdg st') = _xhr (wdg st)
  /\ _xhrTime (wdg st') = _xhrTime (wdg st)
  /\ attribute "ajax" st' = attribute "ajax" st
  /\ xhrs (env st') = xhrs (env st)
  /\ network (env st') = network (env st)
  /\ now (env st') = now (env st)
  /\ next_timer (env st') = next_timer (env st).

Lemma calm_refl st : calm st st.
Proof. repeat split. Qed.

Lemma calm_trans st1 st2 st3 : calm st1 st2 -> calm st2 st3 -> calm st1 st3.
Proof.
  unfold calm.
  intros (A1 & A2 & A3 & A4 & A5 & A6 & A7 & A8 & A9 & A10 & A11)
         (B1 & B2 & B3 & B4 & B5 & B6 & B7 & B8 & B9 & B10 & B11).
  rewrite B1, B2, B3, B4, B5, B6, B7, B8, B9, B10, B11.
  repeat split; assumption.
Qed.

Lemma calm_ready st st' : calm st st' -> ready st -> ready st'.
Proof.
  intros (A1 & A2 & A3 & A4 & A5 & A6 & A7 & A8 & A9 & A10 & A11).
  apply ready_ext; try assumption. now rewrite A8.
Qed.

Lemma calm_clearTimeout o st : calm st (clearTimeout o st).
Proof. unfold calm. crunch. repeat split. Qed.

Lemma xhrTime_onMutation st : _xhrTime (wdg (onMutation st)) = _xhrTime (wdg st).
Proof.
  unfold onMutation. destruct (_observer (wdg st)); [|reflexivity].
  destruct (_ && _ && _); autorewrite with frame;
    destruct (highlight (input_getter st)); now autorewrite with frame.
Qed.

Lemma ajax_onMutation st :
  attribute "ajax" (onMutation st) = attribute "ajax" st.
Proof.
  destruct (_observer (wdg st)) as [o|] eqn:Ho.
  - rewrite attribute_tree, (onMutation_tree st o Ho).
    apply root_attribute_pass. repeat split; discriminate.
  - unfold onMutation. now rewrite Ho.
Qed.

Lemma calm_onMutation st : calm st (onMutation st).
Proof.
  unfold calm.
  rewrite doc_onMutation, env_onMutation, observer_onMutation,
    xhr_onMutation, xhrTime_onMutation, ajax_onMutation.
  repeat split.
Qed.

Lemma calm_toggle_root name v st :
  name <> "ajax" ->
  calm st (set_tree (map_root (toggle_attr name v) (tree st)) st).
Proof.
  intros Hne. unfold calm. crunch. repeat split.
  unfold attribute, getAttribute. cbn. apply toggle_attr_other. congruence.
Qed.

Lemma calm_attributeChangedCallback_hidden st :
  calm st (attributeChangedCallback "hidden" st).
Proof.
  unfold attributeChangedCallback.
  destruct (_observer (wdg st)); [|apply calm_refl].
  rewrite (bool_decide_eq_true_2 ("hidden" = "hidden")) by reflexivity.
  rewrite (bool_decide_eq_false_2 ("hidden" = "highlight")) by discriminate.
  unfold calm. crunch. repeat split.
Qed.

Lemma calm_set_hidden v st : calm st (set_hidden v st).
Proof.
  unfold set_hidden.
  assert (H : calm st (set_tree (map_root (toggle_attr "hidden" v) (tree st)) st))
    by (apply calm_toggle_root; discriminate).
  destruct (negb _); [|exact H].
  eapply calm_trans; [exact H|]. apply calm_attributeChangedCallback_hidden.
Qed.

Lemma timers_set_hidden v st :
  timers (env (set_hidden v st)) = timers (env st).
Proof. now rewrite env_set_hidden. Qed.

(** *** Time passing *)

Lemma sends_ext st st' :
  timers (env st') = timers (env st) -> sends st' = sends st.
Proof. unfold sends. now intros ->. Qed.

(** While no debounce is due, the timers that run leave the debounce, the
    request and the network alone, and none of them throws. *)
Lemma fire_due_quiet fuel st :
  NoDup (map tid (timers (env st))) ->
  (forall t, In t (sends st) -> now (env st) < due t) ->
  exists st',
    fire_due fuel st = Ret tt st'
    /\ calm st st'
    /\ sends st' = sends st
    /\ NoDup (map tid (timers (env st')))
    /\ (forall t, In t (timers (env st')) -> In t (timers (env st))).
Proof.
  revert st. induction fuel as [|fuel IH]; intros st Hnd Hq; cbn [fire_due].
  { exists st. auto using calm_refl. }
  rewrite next_due_pick.
  destruct (pick _ _) as [t|] eqn:Ep; [|exists st; auto using calm_refl].
  apply pick_In in Ep as [Hin Hd].
  assert (Es : is_send t = false).
  { destruct (is_send t) eqn:Es; [|reflexivity].
    assert (Hs : In t (sends st)) by (now apply filter_In).
    specialize (Hq t Hs). lia. }
  set (st0 := clearTimeout (Some (tid t)) st).
  assert (C0 : calm st st0) by apply calm_clearTimeout.
  assert (N0 : NoDup (map tid (timers (env st0))))
    by (now apply NoDup_without).
  assert (S0 : sends st0 = sends st)
    by (now apply sends_without_other).
  assert (I0 : forall u, In u (timers (env st0)) -> In u (timers (env st)))
    by (intros u Hu; now apply In_without in Hu).
  assert (step : forall st1,
             calm st0 st1 -> timers (env st1) = timers (env st0) ->
             exists st',
               fire_due fuel st1 = Ret tt st'
               /\ calm st st' /\ sends st' = sends st
               /\ NoDup (map tid (timers (env st')))
               /\ (forall u, In u (timers (env st')) -> In u (timers (env st)))).
  { intros st1 C1 T1.
    assert (C : calm st st1) by (exact (calm_trans st st0 st1 C0 C1)).
    destruct (IH st1) as (st' & E & C' & S' & N' & I').
    - now rewrite T1.
    - intros u Hu. rewrite (sends_ext st0 st1 T1), S0 in Hu.
      destruct C as (_ & _ & _ & _ & _ & _ & _ & _ & _ & -> & _). now apply Hq.
    - exists st'. split; [exact E|]. split; [eapply calm_trans; eassumption|].
      split; [now rewrite S', (sends_ext st0 st1 T1)|]. split; [exact N'|].
      intros u Hu. apply I0. rewrite <- T1. now apply I'. }
  unfold is_send in Es. destruct (action t) as [|v|]; cbn [run_callback bind].
  - apply step; [apply calm_onMutation|now rewrite env_onMutation].
  - apply step; [apply calm_set_hidden|apply timers_set_hidden].
  - discriminate.
Qed.

(** The debounce expires on a widget that is ready: unless the input is
    empty the request goes out, for the text the input holds then. *)
Lemma onAjaxSend_ready st :
  ready st ->
  exists st',
    onAjaxSend st = Ret tt st'
    /\ network (env st')
       = network (env st)
         ++ (if Str.truthy (input_value (doc st))
             then [request_url st (input_value (doc st))] else [])
    /\ timers (env st') = timers (env st)
    /\ now (env st') = now (env st).
Proof.
  intros (R1 & [o Ho] & (i & Hi & Hlen) & R4 & R5 & R6).
  unfold onAjaxSend. rewrite Ho, doc_input_getter.
  destruct (Str.truthy (input_value (doc st))) eqn:Ev; cbn [negb].
  - unfold dispatchEvent. rewrite doc_input_getter.
    rewrite bool_decide_eq_false_2 by exact R6. cbn [negb].
    crunch. rewrite Hi. eexists. split; [reflexivity|].
    crunch. unfold request_url.
    rewrite (ajax_attribute _ st) by (now crunch).
    repeat split.
  - eexists. split; [reflexivity|]. crunch. now rewrite app_nil_r.
Qed.

(** The one debounce that is pending is due: it runs, once, among the
    other timers that are due, and the request goes out unless the input is
    empty. *)
Lemma fire_due_send fuel st (T : timer) :
  ready st ->
  NoDup (map tid (timers (env st))) ->
  sends st = [T] -> due T <= now (env st) ->
  length (timers (env st)) <= fuel ->
  exists st',
    fire_due fuel st = Ret tt st'
    /\ network (env st')
       = network (env st)
         ++ (if Str.truthy (input_value (doc st))
             then [request_url st (input_value (doc st))] else [])
    /\ sends st' = []
    /\ now (env st') = now (env st).
Proof.
  revert st. induction fuel as [|fuel IH]; intros st Hr Hnd Hs Hd Hf.
  { destruct (timers (env st)) as [|a l] eqn:El; [|simpl in Hf; lia].
    unfold sends in Hs. rewrite El in Hs. discriminate. }
  assert (HT : In T (timers (env st)) /\ is_send T = true).
  { apply filter_In. fold (sends st). rewrite Hs. now left. }
  destruct HT as [HTin HTs].
  cbn [fire_due]. rewrite next_due_pick.
  destruct (pick_Some _ _ T HTin Hd) as [t Ep]. rewrite Ep.
  apply pick_In in Ep as [Hin Htd].
  pose proof (length_without _ _ Hin) as Hlen.
  set (st0 := clearTimeout (Some (tid t)) st).
  assert (C0 : calm st st0) by apply calm_clearTimeout.
  assert (N0 : NoDup (map tid (timers (env st0))))
    by (now apply NoDup_without).
  assert (L0 : length (timers (env st0)) <= fuel)
    by (change (timers (env st0)) with (without (tid t) (timers (env st))); lia).
  destruct (is_send t) eqn:Es.
  - (* the debounce itself *)
    assert (Et : t = T).
    { assert (Ht : In t (sends st)) by (now apply filter_In).
      rewrite Hs in Ht. now destruct Ht as [<-|[]]. }
    subst t. unfold is_send in Es.
    destruct (action T); try discriminate. cbn [run_callback].
    destruct (onAjaxSend_ready st0) as (st1 & E1 & Net1 & T1 & Now1).
    { now apply (calm_ready st). }
    rewrite E1. cbn [bind].
    assert (S1 : sends st1 = []).
    { rewrite (sends_ext st0 st1 T1). now apply sends_without_sole. }
    destruct (fire_due_quiet fuel st1) as (st' & E & C & S & _).
    + now rewrite T1.
    + rewrite S1. intros u [].
    + exists st'. split; [exact E|].
      destruct C as (_ & _ & _ & _ & _ & _ & _ & _ & -> & -> & _).
      split; [exact Net1|]. split; [now rewrite S|exact Now1].
  - (* another timer that is due first *)
    assert (S0 : sends st0 = [T])
      by (rewrite <- Hs; now apply sends_without_other).
    assert (step : forall st1,
               calm st0 st1 -> timers (env st1) = timers (env st0) ->
               exists st',
                 fire_due fuel st1 = Ret tt st'
                 /\ network (env st')
                    = network (env st)
                      ++ (if Str.truthy (input_value (doc st))
                          then [request_url st (input_value (doc st))] else [])
                 /\ sends st' = []
                 /\ now (env st') = now (env st)).
    { intros st1 C1 T1.
      destruct (IH st1) as (st' & E & Net & S' & Now').
      - now apply (calm_ready st0), (calm_ready st).
      - now rewrite T1.
      - now rewrite (sends_ext st0 st1 T1).
      - destruct C1 as (_ & _ & _ & _ & _ & _ & _ & _ & _ & -> & _).
        exact Hd.
      - now rewrite T1.
      - exists st'. split; [exact E|].
        destruct C1 as (_ & _ & V1 & _ & _ & _ & A1 & _ & N1 & W1 & _).
        rewrite N1, V1 in Net. rewrite W1 in Now'.
        unfold request_url in *. rewrite (ajax_attribute st1 st0 A1) in Net.
        now split; [exact Net|split]. }
    unfold is_send in Es. destruct (action t) as [|v|]; cbn [run_callback bind].
    + apply step; [apply calm_onMutation|now rewrite env_onMutation].
    + apply step; [apply calm_set_hidden|apply timers_set_hidden].
    + discriminate.
Qed.

(** *** Keystrokes and the quiet period *)

Lemma cleared_tidy st :
  tidy st ->
  let l := timers (env (clearTimeout (_xhrTime (wdg st)) st)) in
  NoDup (map tid l)
  /\ (forall t, In t l -> tid t < next_timer (env st))
  /\ List.filter is_send l = [].
Proof.
  intros (Hnd & Hlt & Htr). destruct (_xhrTime (wdg st)) as [k|] eqn:Ek.
  - cbn zeta. rewrite timers_clear. split; [|split].
    + now apply NoDup_without.
    + intros t Ht. apply In_without in Ht as [Ht _]. now apply Hlt.
    + apply filter_none. intros u Hu. apply In_without in Hu as [Hu Hne].
      destruct (is_send u) eqn:Es; [|reflexivity].
      assert (Hs : In u (sends st)) by (now apply filter_In).
      specialize (Htr u Hs). congruence.
  - cbn [clearTimeout]. cbn zeta. split; [exact Hnd|]. split; [exact Hlt|].
    apply filter_none. intros u Hu.
    destruct (is_send u) eqn:Es; [|reflexivity].
    assert (Hs : In u (sends st)) by (now apply filter_In).
    specialize (Htr u Hs). congruence.
Qed.

(** A keystroke leaves exactly one debounce pending, due a quiet period
    later. *)
Lemma typing_armed (v : string) st :
  ready st -> tidy st ->
  exists st1 T,
    step JSON_parse (Typing v) st = Ret tt st1
    /\ ready st1 /\ tidy st1
    /\ attribute "ajax" st1 = attribute "ajax" st
    /\ input_value (doc st1) = v
    /\ sends st1 = [T]
    /\ due T = now (env st) + AJAX_DEBOUNCE
    /\ now (env st1) = now (env st)
    /\ network (env st1) = network (env st).
Proof.
  intros Hr Ht.
  destruct (typing_step v st Hr)
    as (st1 & E & R1 & A1 & V1 & T1 & X1 & N1 & W1 & Net1).
  destruct (cleared_tidy st Ht) as (Cnd & Clt & Csend).
  set (T := mkTimer (next_timer (env st)) (now (env st) + AJAX_DEBOUNCE)
              CbAjaxSend) in *.
  assert (S1 : sends st1 = [T]).
  { unfold sends. rewrite T1, List.filter_app, Csend. reflexivity. }
  exists st1, T. split; [exact E|]. split; [exact R1|]. split.
  { split; [|split].
    - rewrite T1, map_app. apply NoDup_app. split; [exact Cnd|]. split.
      + intros k Hk Hk'. apply list_elem_of_In in Hk, Hk'.
        apply in_map_iff in Hk as (u & <- & Hu).
        destruct Hk' as [Hk'|[]]. simpl in Hk'. specialize (Clt u Hu). lia.
      + simpl. apply NoDup_singleton.
    - intros t Hin. rewrite T1 in Hin. rewrite N1.
      apply in_app_or in Hin as [Hin|[<-|[]]].
      + specialize (Clt t Hin). lia.
      + simpl. lia.
    - intros t Hin. rewrite S1 in Hin. destruct Hin as [<-|[]]. exact X1. }
  repeat split; assumption.
Qed.

(** Time passes and no debounce comes due. *)
Lemma elapse_early (ms : nat) st :
  ready st -> tidy st ->
  (forall t, In t (sends st) -> now (env st) + ms < due t) ->
  exists st',
    step JSON_parse (Elapse ms) st = Ret tt st'
    /\ ready st' /\ tidy st'
    /\ attribute "ajax" st' = attribute "ajax" st
    /\ input_value (doc st') = input_value (doc st)
    /\ sends st' = sends st
    /\ now (env st') = now (env st) + ms
    /\ network (env st') = network (env st).
Proof.
  intros Hr (Hnd & Hlt & Htr) Hq. cbn [step].
  set (st0 := set_now (now (env st) + ms) st).
  destruct (fire_due_quiet (length (timers (env st0))) st0 Hnd Hq)
    as (st' & E & C & S & N & I).
  exists st'. split; [exact E|].
  pose proof C as (_ & _ & V & _ & _ & X & A & _ & Net & W & Nt).
  split; [now apply (calm_ready st0)|]. split.
  { split; [exact N|]. split.
    - intros t Hin. rewrite Nt. apply Hlt. now apply I.
    - intros t Hin. rewrite S in Hin. rewrite X. now apply Htr. }
  repeat split; assumption.
Qed.

(** Time passes and the one pending debounce comes due. *)
Lemma elapse_late (ms : nat) st (T : timer) :
  ready st -> tidy st -> sends st = [T] -> due T <= now (env st) + ms ->
  exists st',
    step JSON_parse (Elapse ms) st = Ret tt st'
    /\ network (env st')
       = network (env st)
         ++ (if Str.truthy (input_value (doc st))
             then [request_url st (input_value (doc st))] else []).
Proof.
  intros Hr (Hnd & _) Hs Hd. cbn [step].
  set (st0 := set_now (now (env st) + ms) st).
  destruct (fire_due_send (length (timers (env st0))) st0 T)
    as (st' & E & Net & _); try assumption; [reflexivity|].
  exists st'. split; [exact E|exact Net].
Qed.

(** Two keystrokes less than a quiet period apart, then a quiet period:
    one request, for the second text, unless that text is empty. *)
Lemma two_keystrokes st (v1 v2 : string) (d e : nat) :
  ready st -> tidy st -> d < AJAX_DEBOUNCE -> AJAX_DEBOUNCE <= e ->
  exists st',
    run JSON_parse [Typing v1; Elapse d; Typing v2; Elapse e] st = Ret tt st'
    /\ network (env st')
       = network (env st)
         ++ (if Str.truthy v2 then [request_url st v2] else []).
Proof.
  intros Hr Ht Hd He. cbn [run].
  destruct (typing_armed v1 st Hr Ht)
    as (st1 & T1 & E1 & R1 & Y1 & A1 & V1 & S1 & D1 & W1 & N1).
  rewrite E1. cbn [bind].
  destruct (elapse_early d st1 R1 Y1)
    as (st2 & E2 & R2 & Y2 & A2 & V2 & S2 & W2 & N2).
  { intros t Hin. rewrite S1 in Hin. destruct Hin as [<-|[]]. lia. }
  rewrite E2. cbn [bind].
  destruct (typing_armed v2 st2 R2 Y2)
    as (st3 & T3 & E3 & R3 & Y3 & A3 & V3 & S3 & D3 & W3 & N3).
  rewrite E3. cbn [bind].
  destruct (elapse_late e st3 T3 R3 Y3 S3) as (st4 & E4 & N4); [lia|].
  rewrite E4. cbn [bind]. exists st4. split; [reflexivity|].
  rewrite N4, N3, N2, N1, V3. unfold request_url.
  rewrite (ajax_attribute st3 st) by (now rewrite A3, A2, A1).
  reflexivity.
Qed.

(** *** Requests in flight *)

Lemma sole_ext i st st' :
  xhrs (env st') = xhrs (env st) ->
  (forall k, _xhr (wdg st') = Some k -> _xhr (wdg st) = Some k) ->
  sole i st -> sole i st'.
Proof.
  intros Hx Hk [H1 H2]. split.
  - rewrite Hx. exact H1.
  - intros k E. apply H2, Hk, E.
Qed.

Lemma sole_on_xhr i k f st :
  (k = i \/ forall x, is_Some (pending (f x)) -> is_Some (pending x)) ->
  sole i st -> sole i (on_xhr k f st).
Proof.
  intros Hk [H1 H2]. split; [|exact H2].
  intros j x. unfold on_xhr. crunch.
  destruct (decide (j = k)) as [->|Hne].
  - rewrite list_lookup_alter_eq.
    destruct (xhrs (env st) !! k) as [y|] eqn:Ey; simpl; [|discriminate].
    intros Hx Hp. injection Hx as <-.
    destruct Hk as [->|Hf]; [reflexivity|]. apply (H1 k y Ey), Hf, Hp.
  - rewrite list_lookup_alter_ne by congruence. apply H1.
Qed.

Lemma omap_cons_case {A B : Type} (f : A -> option B) (a : A) (l : list A) :
  omap f (a :: l)
  = match f a with Some y => y :: omap f l | None => omap f l end.
Proof. reflexivity. Qed.

Lemma omap_pending_nil (l : list (@xhr json)) :
  (forall j x, l !! j = Some x -> pending x = None) -> omap pending l = [].
Proof.
  induction l as [|a l IH]; intros H; [reflexivity|].
  rewrite omap_cons_case, (H 0 a eq_refl). apply IH.
  intros j x Hj. now apply (H (S j)).
Qed.

Lemma omap_pending_sole (l : list (@xhr json)) (i : nat) :
  (forall j x, l !! j = Some x -> is_Some (pending x) -> j = i) ->
  length (omap pending l) <= 1.
Proof.
  revert i. induction l as [|a l IH]; intros i H; [simpl; lia|].
  rewrite omap_cons_case. destruct (pending a) as [u|] eqn:Ea.
  - assert (E : omap pending l = []).
    { apply omap_pending_nil. intros j x Hj.
      destruct (pending x) as [w|] eqn:Ex; [|reflexivity].
      assert (E0 : 0 = i) by (apply (H 0 a eq_refl); rewrite Ea; eauto).
      assert (E1 : S j = i) by (apply (H (S j) x Hj); rewrite Ex; eauto).
      lia. }
    rewrite E. simpl. lia.
  - apply (IH (pred i)). intros j x Hj Hp.
    specialize (H (S j) x Hj Hp). lia.
Qed.

(** At most one request is in flight. *)
Lemma sole_in_flight i st : sole i st -> length (in_flight st) <= 1.
Proof. intros [H _]. unfold in_flight. now apply (omap_pending_sole _ i). Qed.

Lemma requests_onClick ev st :
  xhrs (env (onClick ev st)) = xhrs (env st)
  /\ _xhr (wdg (onClick ev st)) = _xhr (wdg st).
Proof.
  unfold onClick.
  destruct (if _ && _ then _ else None) as [e|];
    [unfold dispatchEvent; destruct (bool_decide (_ ∈ canceled _))|];
    crunch; split; reflexivity.
Qed.

Lemma requests_onKey ev st :
  xhrs (env (onKey ev st)) = xhrs (env st)
  /\ _xhr (wdg (onKey ev st)) = _xhr (wdg st).
Proof.
  unfold onKey. destruct (negb _ && negb _); [now crunch|].
  set (item := if keyCode ev =? KEYS.DOWN then _ else _).
  destruct item as [x|];
    destruct (bool_decide _ || _);
    destruct (_ && _ && _ && _ && _ && _);
    crunch; split; reflexivity.
Qed.

Lemma sole_onAjax i st : sole i st -> sole i (state_of (onAjax st)).
Proof.
  intros Hs. unfold onAjax. destruct (negb _); [exact Hs|].
  rewrite wdg_clearTimeout.
  assert (H0 : sole i (clearTimeout (_xhrTime (wdg st)) st))
    by (apply (sole_ext i st); [now crunch|now crunch|exact Hs]).
  destruct (_xhr (wdg st)) as [k|] eqn:Ek; cbn [state_of]; [|exact H0].
  assert (Eki : k = i) by (now apply Hs).
  eapply sole_ext; [| |apply (sole_on_xhr i k (xhr_set_responseError None));
                        [now left|apply (sole_on_xhr i k xhr_abort);
                                   [now left|exact H0]]].
  - now crunch.
  - crunch. trivial.
Qed.

Lemma sole_onInput i ev st : sole i st -> sole i (state_of (onInput ev st)).
Proof.
  intros Hs. unfold onInput.
  assert (H0 : sole i (input_getter st))
    by (apply (sole_ext i st); [now crunch|now crunch|exact Hs]).
  destruct (negb (bool_decide _)); [exact H0|].
  unfold dispatchEvent.
  set (st1 := set_log _ (input_getter st)).
  assert (H1 : sole i st1)
    by (apply (sole_ext i st); [now subst st1; crunch
                               |now subst st1; crunch|exact Hs]).
  destruct (negb (negb _)); [exact H1|].
  pose proof (sole_onAjax i st1 H1) as H2.
  destruct (onAjax st1) as [remote s|err s]; cbn [bind state_of] in *;
    [|exact H2].
  destruct remote; cbn [state_of]; [exact H2|].
  apply (sole_ext i s); [now crunch|now crunch|exact H2].
Qed.

Lemma sole_handleEvent i ev st :
  sole i st -> sole i (state_of (handleEvent ev st)).
Proof.
  intros Hs. unfold handleEvent.
  destruct (ctrlKey ev || altKey ev || metaKey ev || defaultPrevented ev);
    [exact Hs|].
  set (st1 := if bool_decide (etype ev = "focusin") || _ then _ else st).
  assert (H1 : sole i st1).
  { subst st1.
    destruct (bool_decide (etype ev = "focusin")
              || bool_decide (etype ev = "click")); [|exact Hs].
    destruct (requests_onClick ev st) as [X K].
    apply (sole_ext i st); [exact X|now rewrite K|exact Hs]. }
  set (st2 := if bool_decide (etype ev = "keydown") then _ else st1).
  assert (H2 : sole i st2).
  { subst st2. destruct (bool_decide (etype ev = "keydown")); [|exact H1].
    destruct (requests_onKey ev st1) as [X K].
    apply (sole_ext i st1); [exact X|now rewrite K|exact H1]. }
  destruct (bool_decide (etype ev = "input"));
    [now apply sole_onInput|exact H2].
Qed.

Lemma sole_deliver i ev st : sole i st -> sole i (state_of (deliver ev st)).
Proof.
  intros Hs. unfold deliver. destruct (bool_decide _); [|exact Hs].
  apply sole_handleEvent. exact Hs.
Qed.

Lemma sole_onAjaxSend i st : sole i st -> sole i (state_of (onAjaxSend st)).
Proof.
  intros Hs. unfold onAjaxSend. destruct (_observer (wdg st)); [|exact Hs].
  assert (H0 : sole i (input_getter st))
    by (apply (sole_ext i st); [now crunch|now crunch|exact Hs]).
  destruct (negb _); [exact H0|].
  unfold dispatchEvent.
  set (st1 := set_log _ (input_getter st)).
  assert (H1 : sole i st1)
    by (apply (sole_ext i st); [now subst st1; crunch
                               |now subst st1; crunch|exact Hs]).
  destruct (negb _); [|exact H1].
  destruct (_xhr (wdg st1)) as [k|] eqn:Ek; [|exact H1].
  assert (Eki : k = i) by (now apply H1).
  cbn [state_of]. cbn zeta.
  match goal with
  | |- sole _ (set_network _ ?s) =>
      apply (sole_ext i s); [reflexivity|trivial|]
  end.
  apply sole_on_xhr; [now left|]. apply sole_on_xhr; [now left|].
  apply sole_on_xhr; [now left|exact H1].
Qed.

Lemma sole_fire_due i fuel st :
  sole i st -> sole i (state_of (fire_due fuel st)).
Proof.
  revert st. induction fuel as [|fuel IH]; intros st Hs; [exact Hs|].
  cbn [fire_due]. destruct (next_due st) as [t|]; [|exact Hs].
  set (st0 := clearTimeout (Some (tid t)) st).
  assert (H0 : sole i st0) by exact Hs.
  destruct (action t) as [|v|]; cbn [run_callback bind].
  - apply IH, (sole_ext i st0);
      [now rewrite env_onMutation|now rewrite xhr_onMutation|exact H0].
  - apply IH, (sole_ext i st0); [now rewrite env_set_hidden| |exact H0].
    destruct (calm_set_hidden v st0) as (_ & _ & _ & _ & -> & _). trivial.
  - pose proof (sole_onAjaxSend i st0 H0) as H1.
    destruct (onAjaxSend st0) as [u s|err s]; cbn [bind state_of] in *;
      [now apply IH|exact H1].
Qed.

Lemma sole_set_log i l st : sole i st -> sole i (set_log l st).
Proof. apply sole_ext; [reflexivity|trivial]. Qed.

Lemma sole_xhr_onload i st :
  sole i st -> sole i (state_of (xhr_onload JSON_parse st)).
Proof.
  intros Hs. unfold xhr_onload.
  destruct (_xhr (wdg st)) as [k|]; [|exact Hs].
  destruct (xhrs (env st) !! k) as [x|]; [|exact Hs].
  destruct (negb _); cbn [state_of]; unfold dispatchEvent; cbn [snd].
  - now apply sole_set_log.
  - apply sole_set_log.
    destruct (JSON_parse (responseText x)) as [v|err].
    + apply sole_on_xhr; [right; intros y Hy; exact Hy|exact Hs].
    + apply sole_set_log.
      apply sole_on_xhr; [right; intros y Hy; exact Hy|].
      apply sole_on_xhr; [right; intros y Hy; exact Hy|exact Hs].
Qed.

Lemma sole_xhr_onerror i st : sole i st -> sole i (state_of (xhr_onerror st)).
Proof.
  intros Hs. unfold xhr_onerror.
  destruct (_xhr (wdg st)) as [k|]; [|exact Hs]. cbn [state_of].
  unfold dispatchEvent. cbn [snd]. apply sole_set_log.
  apply sole_on_xhr; [right; intros y Hy; exact Hy|exact Hs].
Qed.

(** Whatever happens to the widget, short of attaching it again, only its
    one request object can have a request in flight. *)
Lemma sole_step i (t : task) st :
  t <> Attach -> sole i st -> sole i (state_of (step JSON_parse t st)).
Proof.
  intros Hne Hs. destruct t as [ev|v|ms|j code body|j| |]; cbn [step].
  - now apply sole_deliver.
  - now apply sole_deliver.
  - now apply sole_fire_due.
  - destruct (xhrs (env st) !! j) as [x|]; [|exact Hs].
    destruct (pending x); [|exact Hs].
    assert (H1 : sole i (on_xhr j (xhr_done code body) st)).
    { apply sole_on_xhr; [|exact Hs]. right. intros y [u Hu]. discriminate. }
    destruct (handlers x); [now apply sole_xhr_onload|exact H1].
  - destruct (xhrs (env st) !! j) as [x|]; [|exact Hs].
    destruct (pending x); [|exact Hs].
    assert (H1 : sole i (on_xhr j (xhr_done 0 "") st)).
    { apply sole_on_xhr; [|exact Hs]. right. intros y [u Hu]. discriminate. }
    destruct (handlers x); [now apply sole_xhr_onerror|exact H1].
  - congruence.
  - unfold disconnectedCallback. rewrite wdg_set_listeners.
    destruct (_observer (wdg st)); cbn [state_of].
    + apply (sole_ext i st); [now crunch|crunch; discriminate|exact Hs].
    + exact Hs.
Qed.

Lemma sole_run i (ts : list task) st :
  Forall (fun t => t <> Attach) ts -> sole i st ->
  sole i (state_of (run JSON_parse ts st)).
Proof.
  intros Hts. revert st. induction Hts as [|t ts Ht _ IH]; intros st Hs.
  - exact Hs.
  - cbn [run]. pose proof (sole_step i t st Ht Hs) as H1.
    destruct (step JSON_parse t st) as [u s|err s]; cbn [bind state_of] in *;
      [now apply IH|exact H1].
Qed.

(** A keystroke aborts the request in flight. *)
Lemma typing_aborts i (v : string) st :
  ready st -> sole i st ->
  in_flight (state_of (step JSON_parse (Typing v) st)) = [].
Proof.
  intros Hr [H1 H2]. pose proof Hr as (_ & _ & (k & Hk & _) & _).
  assert (Eki : k = i) by (now apply H2). subst k.
  rewrite (typing_scheduled v st i Hr Hk). cbn [state_of].
  unfold in_flight, scheduled. crunch.
  apply omap_pending_nil. intros j x.
  destruct (decide (j = i)) as [->|Hne].
  - rewrite !list_lookup_alter_eq.
    destruct (xhrs (env st) !! i) as [y|]; simpl; [|discriminate].
    intros Hx. now injection Hx as <-.
  - rewrite !list_lookup_alter_ne by congruence. intros Hx.
    destruct (pending x) as [u|] eqn:Ex; [|reflexivity].
    exfalso. apply Hne, (H1 j x Hx). rewrite Ex. eauto.
Qed.

(** *** The timer queue stays tidy *)

Lemma tidy_ext st st' :
  timers (env st') = timers (env st) ->
  next_timer (env st') = next_timer (env st) ->
  _xhrTime (wdg st') = _xhrTime (wdg st) ->
  tidy st -> tidy st'.
Proof.
  intros Ht Hn Hx (H1 & H2 & H3). unfold tidy, sends. rewrite Ht, Hn, Hx.
  repeat split; assumption.
Qed.

Lemma tidy_clearTimeout o st : tidy st -> tidy (clearTimeout o st).
Proof.
  intros (H1 & H2 & H3). destruct o as [k|]; [|now repeat split].
  unfold tidy, sends. rewrite timers_clear. crunch. split; [|split].
  - now apply NoDup_without.
  - intros t Ht. apply In_without in Ht as [Ht _]. now apply H2.
  - intros t Ht. apply filter_In in Ht as [Ht Hs].
    apply In_without in Ht as [Ht _]. apply H3. now apply filter_In.
Qed.

(** A timer other than the debounce joins the queue. *)
Lemma tidy_setTimeout f d st :
  f <> CbAjaxSend -> tidy st -> tidy (snd (setTimeout f d st)).
Proof.
  intros Hf (H1 & H2 & H3). unfold tidy, sends. crunch. split; [|split].
  - rewrite map_app. apply NoDup_app. split; [exact H1|]. split.
    + intros k Hk Hk'. apply list_elem_of_In in Hk, Hk'.
      apply in_map_iff in Hk as (u & <- & Hu).
      destruct Hk' as [Hk'|[]]. simpl in Hk'. specialize (H2 u Hu). lia.
    + simpl. apply NoDup_singleton.
  - intros t Ht. apply in_app_or in Ht as [Ht|[<-|[]]].
    + specialize (H2 t Ht). lia.
    + simpl. lia.
  - intros t Ht. rewrite List.filter_app in Ht.
    apply in_app_or in Ht as [Ht|Ht]; [now apply H3|].
    simpl in Ht. unfold is_send in Ht at 1. simpl in Ht.
    destruct f; try destruct Ht; congruence.
Qed.

Lemma tidy_onAjax st : tidy st -> tidy (state_of (onAjax st)).
Proof.
  intros Ht. unfold onAjax. destruct (negb _); [exact Ht|].
  rewrite wdg_clearTimeout.
  destruct (_xhr (wdg st)) as [i|]; [|now apply tidy_clearTimeout].
  destruct (cleared_tidy st Ht) as (Cnd & Clt & Csend).
  unfold tidy, sends. crunch. split; [|split].
  - rewrite map_app. apply NoDup_app. split; [exact Cnd|]. split.
    + intros k Hk Hk'. apply list_elem_of_In in Hk, Hk'.
      apply in_map_iff in Hk as (u & <- & Hu).
      destruct Hk' as [Hk'|[]]. simpl in Hk'. specialize (Clt u Hu). lia.
    + simpl. apply NoDup_singleton.
  - intros t Hin. apply in_app_or in Hin as [Hin|[<-|[]]].
    + specialize (Clt t Hin). lia.
    + simpl. lia.
  - intros t Hin. rewrite List.filter_app, Csend in Hin.
    destruct Hin as [<-|[]]. reflexivity.
Qed.

Lemma tidy_onInput ev st : tidy st -> tidy (state_of (onInput ev st)).
Proof.
  intros Ht. unfold onInput.
  assert (H0 : tidy (input_getter st))
    by (apply (tidy_ext st); [now crunch..|exact Ht]).
  destruct (negb (bool_decide _)); [exact H0|].
  unfold dispatchEvent.
  set (st1 := set_log _ (input_getter st)).
  assert (H1 : tidy st1)
    by (apply (tidy_ext st); [now subst st1; crunch..|exact Ht]).
  destruct (negb (negb _)); [exact H1|].
  pose proof (tidy_onAjax st1 H1) as H2.
  destruct (onAjax st1) as [remote s|err s]; cbn [bind state_of] in *;
    [|exact H2].
  destruct remote; cbn [state_of]; [exact H2|].
  apply (tidy_ext s); [now crunch..|exact H2].
Qed.

Lemma tidy_onKey ev st : tidy st -> tidy (onKey ev st).
Proof.
  intros Ht. unfold onKey.
  assert (H0 : tidy (input_getter st))
    by (apply (tidy_ext st); [now crunch..|exact Ht]).
  destruct (negb _ && negb _); [exact H0|].
  set (item := if keyCode ev =? KEYS.DOWN then _ else _).
  set (st1 := if _ && _ && _ && _ && _ && _ then _ else input_getter st).
  assert (H1 : tidy st1).
  { subst st1. destruct (_ && _ && _ && _ && _ && _); [|exact H0].
    apply (tidy_ext (input_getter st)); [now crunch..|exact H0]. }
  pose proof (tidy_setTimeout (CbHidden (keyCode ev =? KEYS.ESC)) 0 st1
                ltac:(discriminate) H1) as H2.
  set (st2 := snd (setTimeout _ 0 st1)) in *.
  set (st3 := if bool_decide (is_Some item) || _ then _ else st2).
  assert (H3 : tidy st3).
  { subst st3. destruct (bool_decide _ || _); [|exact H2].
    apply (tidy_ext st2); [reflexivity..|exact H2]. }
  destruct item as [x|]; [|exact H3].
  apply (tidy_ext st3); [reflexivity..|exact H3].
Qed.

Lemma tidy_onClick ev st : tidy st -> tidy (onClick ev st).
Proof.
  intros Ht. unfold onClick.
  set (item := if _ && _ then _ else None).
  set (show := negb _ && _).
  assert (H0 : tidy (input_getter st))
    by (apply (tidy_ext st); [now crunch..|exact Ht]).
  apply tidy_setTimeout; [discriminate|].
  destruct item as [e|]; [|exact H0].
  unfold dispatchEvent. destruct (bool_decide (_ ∈ canceled _)); cbn [negb];
    (apply (tidy_ext (input_getter st)); [now crunch..|exact H0]).
Qed.

Lemma tidy_handleEvent ev st :
  tidy st -> tidy (state_of (handleEvent ev st)).
Proof.
  intros Hs. unfold handleEvent.
  destruct (ctrlKey ev || altKey ev || metaKey ev || defaultPrevented ev);
    [exact Hs|].
  set (st1 := if bool_decide (etype ev = "focusin") || _ then _ else st).
  assert (H1 : tidy st1).
  { subst st1.
    destruct (bool_decide (etype ev = "focusin")
              || bool_decide (etype ev = "click")); [|exact Hs].
    now apply tidy_onClick. }
  set (st2 := if bool_decide (etype ev = "keydown") then _ else st1).
  assert (H2 : tidy st2).
  { subst st2. destruct (bool_decide (etype ev = "keydown")); [|exact H1].
    now apply tidy_onKey. }
  destruct (bool_decide (etype ev = "input"));
    [now apply tidy_onInput|exact H2].
Qed.

Lemma tidy_deliver ev st : tidy st -> tidy (state_of (deliver ev st)).
Proof.
  intros Hs. unfold deliver. destruct (bool_decide _); [|exact Hs].
  apply tidy_handleEvent. exact Hs.
Qed.

Lemma tidy_calm st st' :
  calm st st' -> timers (env st') = timers (env st) -> tidy st -> tidy st'.
Proof.
  intros (_ & _ & _ & _ & _ & X & _ & _ & _ & _ & N) T.
  now apply tidy_ext.
Qed.

Lemma tidy_onAjaxSend st : tidy st -> tidy (state_of (onAjaxSend st)).
Proof.
  intros Hs. unfold onAjaxSend. destruct (_observer (wdg st)); [|exact Hs].
  assert (H0 : tidy (input_getter st))
    by (apply (tidy_ext st); [now crunch..|exact Hs]).
  destruct (negb _); [exact H0|].
  unfold dispatchEvent.
  set (st1 := set_log _ (input_getter st)).
  assert (H1 : tidy st1)
    by (apply (tidy_ext st); [now subst st1; crunch..|exact Hs]).
  destruct (negb _); [|exact H1].
  destruct (_xhr (wdg st1)) as [k|] eqn:Ek; [|exact H1].
  cbn [state_of]. cbn zeta.
  apply (tidy_ext st1); [now crunch..|exact H1].
Qed.

Lemma tidy_fire_due fuel st : tidy st -> tidy (state_of (fire_due fuel st)).
Proof.
  revert st. induction fuel as [|fuel IH]; intros st Hs; [exact Hs|].
  cbn [fire_due]. destruct (next_due st) as [t|]; [|exact Hs].
  pose proof (tidy_clearTimeout (Some (tid t)) st Hs) as H0.
  set (st0 := clearTimeout (Some (tid t)) st) in *.
  destruct (action t) as [|v|]; cbn [run_callback bind].
  - apply IH, (tidy_calm st0);
      [apply calm_onMutation|now rewrite env_onMutation|exact H0].
  - apply IH, (tidy_calm st0);
      [apply calm_set_hidden|apply timers_set_hidden|exact H0].
  - pose proof (tidy_onAjaxSend st0 H0) as H1.
    destruct (onAjaxSend st0) as [u s|err s]; cbn [bind state_of] in *;
      [now apply IH|exact H1].
Qed.

Lemma tidy_connectedCallback st : tidy st -> tidy (connectedCallback st).
Proof.
  intros Hs. unfold connectedCallback. cbn zeta.
  match goal with
  | |- tidy (if _ then set_hidden false ?s else ?s) =>
      assert (H1 : tidy s)
  end.
  { apply tidy_setTimeout; [discriminate|].
    apply (tidy_ext st); [now crunch..|exact Hs]. }
  destruct (bool_decide _); [|exact H1].
  eapply tidy_calm; [apply calm_set_hidden|apply timers_set_hidden|exact H1].
Qed.

(** Whatever happens to the widget, the timer queue stays tidy: it is, in
    every state reached from one with an empty queue. *)
Lemma tidy_step (t : task) st :
  tidy st -> tidy (state_of (step JSON_parse t st)).
Proof.
  intros Hs. destruct t as [ev|v|ms|j code body|j| |]; cbn [step].
  - now apply tidy_deliver.
  - apply tidy_deliver. now apply (tidy_ext st).
  - apply tidy_fire_due. now apply (tidy_ext st).
  - destruct (xhrs (env st) !! j) as [x|]; [|exact Hs].
    destruct (pending x); [|exact Hs].
    destruct (handlers x); [|now apply (tidy_ext st)].
    unfold xhr_onload. crunch.
    destruct (_xhr (wdg st)) as [k|]; [|now apply (tidy_ext st)].
    destruct (alter _ j (xhrs (env st)) !! k) as [y|];
      [|now apply (tidy_ext st)].
    destruct (negb _); cbn [state_of]; unfold dispatchEvent; cbn [snd].
    + now apply (tidy_ext st).
    + destruct (JSON_parse (responseText y));
        (apply (tidy_ext st); [now crunch..|exact Hs]).
  - destruct (xhrs (env st) !! j) as [x|]; [|exact Hs].
    destruct (pending x); [|exact Hs].
    destruct (handlers x); [|now apply (tidy_ext st)].
    unfold xhr_onerror. crunch.
    destruct (_xhr (wdg st)) as [k|]; now apply (tidy_ext st).
  - now apply tidy_connectedCallback.
  - unfold disconnectedCallback. rewrite wdg_set_listeners.
    destruct (_observer (wdg st)); now apply (tidy_ext st).
Qed.

Lemma tidy_run (ts : list task) st :
  tidy st -> tidy (state_of (run JSON_parse ts st)).
Proof.
  revert st. induction ts as [|t ts IH]; intros st Hs; [exact Hs|].
  cbn [run]. pose proof (tidy_step t st Hs) as H1.
  destruct (step JSON_parse t st) as [u s|err s]; cbn [bind state_of] in *;
    [now apply IH|exact H1].
Qed.

End Widget.
End DebounceFacts.

(** * The behaviour contract *)

Module Contract.
Import Dom Suggest Samples.
Import DomFacts StrFacts FrameFacts FlagFacts UnmarkFacts MarkFacts MutationFacts.
Import HighlightFacts EnhanceFacts FilterFacts LoopFacts DebounceFacts.

(** Closing a decidable side condition on a sample by evaluation. *)
Ltac by_evaluation := apply (bool_decide_unpack _); vm_compute; exact I.

Section Widget.
Context {json : Type}.
Implicit Types st : @state json.




End Widget.



(** The input filter does reveal candidates: with the second suggestion
    hidden and "ban" typed, it is the one left visible. *)
Example filter_reveals :
  let st := page_with [] fruit_one_hidden "ban" in
  let st' := state_of (onInput (plain "input" TInput 0) st) in
  hidden_items (tree st) = [5] /\ visible_items (tree st') = [5].
Proof. vm_compute. split; reflexivity. Qed.


Section Detaching.
Context {json : Type}.
Implicit Types st : @state json.

(** C2 (as amended). On an attached widget the detachment callback
    returns, and afterwards the widget listens for none of the four
    document events, its observer has stopped observing, and its references
    to the observer, the input, the pattern and the request object are
    released. No timer is canceled by it: a debounce that is pending stays
    in the queue, and when it expires it finds the widget detached and does
    nothing. *)
Theorem C2_detachment st (o : nat) :
  _observer (wdg st) = Some o -> o < length (observers (env st)) ->
  exists st',
    disconnectedCallback st = Ret tt st'
    /\ (forall type, type ∈ document_events -> type ∉ listeners (doc st'))
    /\ observers (env st') !! o = Some false
    /\ _observer (wdg st') = None /\ _input (wdg st') = false
    /\ _regex (wdg st') = false /\ _xhr (wdg st') = None
    /\ timers (env st') = timers (env st)
    /\ onAjaxSend st' = Ret tt st'.
Proof.
  intros Ho Hlen. unfold disconnectedCallback.
  rewrite wdg_set_listeners, Ho.
  eexists. split; [reflexivity|]. split; [|split].
  - intros type Hin. simpl. intros Hd.
    apply elem_of_difference in Hd as [_ Hd]. now apply Hd.
  - simpl. now apply list_lookup_insert_eq.
  - repeat split; try reflexivity.
Qed.

End Detaching.

(** Detaching the sample page. *)
Lemma C2_detachment_witness :
  let st := remote_page "" in
  _observer (wdg st) = Some 0 /\ 0 < length (observers (env st))
  /\ exists st',
       disconnectedCallback st = Ret tt st'
       /\ (forall type, type ∈ document_events -> type ∉ listeners (doc st'))
       /\ observers (env st') !! 0 = Some false
       /\ _observer (wdg st') = None /\ _input (wdg st') = false
       /\ _regex (wdg st') = false /\ _xhr (wdg st') = None
       /\ timers (env st') = timers (env st)
       /\ onAjaxSend st' = Ret tt st'.
Proof.
  intros st.
  assert (Hl : 0 < length (observers (env st))) by (simpl; lia).
  split; [reflexivity|]. split; [exact Hl|].
  exact (C2_detachment st 0 eq_refl Hl).
Defined.

(** C2 as stated fails for the timers and the request: detaching with a
    debounce pending leaves the timer in the queue, and detaching with a
    request in flight leaves it in flight. *)
Lemma C2_counterexample :
  let pending_after := state_of (disconnectedCallback typed_page) in
  let flying_after := state_of (disconnectedCallback searching_page) in
  timers (env typed_page) = [mkTimer 0 500 CbAjaxSend]
  /\ timers (env pending_after) = [mkTimer 0 500 CbAjaxSend]
  /\ in_flight searching_page = ["/search?q=a"]
  /\ in_flight flying_after = ["/search?q=a"].
Proof. vm_compute. repeat split; reflexivity. Qed.

Section Fetching.
Context {json : Type}.
Variable JSON_parse : string -> json + string.
Implicit Types st : @state json.

Lemma xhr_detail_on_xhr i f st x :
  _xhr (wdg st) = Some i -> xhrs (env st) !! i = Some x ->
  xhr_detail (on_xhr i f st) = DXhr (f x).
Proof.
  intros Hi Hx. unfold xhr_detail. rewrite wdg_on_xhr, Hi.
  unfold on_xhr. simpl. now rewrite list_lookup_alter_eq, Hx.
Qed.

Lemma lookup_on_xhr i f st x :
  xhrs (env st) !! i = Some x -> xhrs (env (on_xhr i f st)) !! i = Some (f x).
Proof. intros Hx. unfold on_xhr. simpl. now rewrite list_lookup_alter_eq, Hx. Qed.

(** C3 (as amended). While the widget holds the request object whose
    request completes, the completion handler returns without throwing,
    and it emits, in this order and nothing else:
    - status 200 and a body that parses: one "data received" notification,
      carrying the request object with the parsed payload;
    - a status other than 200: one "error" notification carrying the
      request object, whose error message is left as it was;
    - status 200 and a body that does not parse: an "error" notification
      carrying the parser's message and [false] for the payload, and then
      a "data received" notification carrying the same;
    - a network failure: one "error" notification carrying the message
      "Error: Network request failed". *)
Theorem C3_fetch_outcomes st (i : nat) (x : xhr) (code : nat) (body : string) :
  _xhr (wdg st) = Some i -> xhrs (env st) !! i = Some x ->
  is_Some (pending x) -> handlers x = true ->
  let done := xhr_done code body x in
  (code = 200 -> forall j, JSON_parse body = inl j ->
   exists st',
     step JSON_parse (Respond i code body) st = Ret tt st'
     /\ log (env st')
        = log (env st)
          ++ [mkNotification "suggest.ajax"
                (DXhr (xhr_set_responseJSON (JsValue j) done))])
  /\ (code <> 200 ->
      exists st',
        step JSON_parse (Respond i code body) st = Ret tt st'
        /\ log (env st')
           = log (env st) ++ [mkNotification "suggest.ajax.error" (DXhr done)])
  /\ (code = 200 -> forall err, JSON_parse body = inr err ->
      let failed :=
        xhr_set_responseError (Some err) (xhr_set_responseJSON JsFalse done) in
      exists st',
        step JSON_parse (Respond i code body) st = Ret tt st'
        /\ log (env st')
           = log (env st)
             ++ [mkNotification "suggest.ajax.error" (DXhr failed);
                 mkNotification "suggest.ajax" (DXhr failed)])
  /\ (exists st',
        step JSON_parse (Fail i) st = Ret tt st'
        /\ log (env st')
           = log (env st)
             ++ [mkNotification "suggest.ajax.error"
                   (DXhr (xhr_set_responseError
                            (Some "Error: Network request failed")
                            (xhr_done 0 "" x)))]).
Proof.
  intros Hi Hx [u Hp] Hh done.
  assert (S1 : forall c b,
             step JSON_parse (Respond i c b) st
             = xhr_onload JSON_parse (on_xhr i (xhr_done c b) st)).
  { intros c b. simpl. now rewrite Hx, Hp, Hh. }
  assert (L1 : forall c b,
             xhrs (env (on_xhr i (xhr_done c b) st)) !! i
             = Some (xhr_done c b x))
    by (intros; now apply lookup_on_xhr).
  split; [|split; [|split]].
  - intros -> j Hj. rewrite S1. unfold xhr_onload.
    rewrite wdg_on_xhr, Hi, L1. simpl (negb _). cbv iota.
    simpl (responseText _). rewrite Hj.
    eexists. split; [reflexivity|].
    rewrite (xhr_detail_on_xhr i _ _ (xhr_done 200 body x));
      [reflexivity|now rewrite wdg_on_xhr|apply L1].
  - intros Hc. rewrite S1. unfold xhr_onload.
    rewrite wdg_on_xhr, Hi, L1.
    assert (E : (status (xhr_done code body x) =? 200) = false)
      by (now apply Nat.eqb_neq).
    rewrite E. simpl (negb _). cbv iota.
    eexists. split; reflexivity.
  - intros -> err Herr failed. rewrite S1. unfold xhr_onload.
    rewrite wdg_on_xhr, Hi, L1. simpl (negb _). cbv iota.
    simpl (responseText _). rewrite Herr.
    eexists. split; [reflexivity|].
    set (st1 := on_xhr i (xhr_done 200 body) st).
    set (st2 := on_xhr i (xhr_set_responseJSON JsFalse) st1).
    assert (L2 : xhrs (env st2) !! i
                 = Some (xhr_set_responseJSON JsFalse (xhr_done 200 body x)))
      by (apply (lookup_on_xhr i (xhr_set_responseJSON JsFalse) st1
                   (xhr_done 200 body x)), L1).
    assert (D : xhr_detail (on_xhr i (xhr_set_responseError (Some err)) st2)
                = DXhr failed).
    { apply (xhr_detail_on_xhr i (xhr_set_responseError (Some err)) st2
               (xhr_set_responseJSON JsFalse (xhr_done 200 body x)));
        [|exact L2].
      subst st2 st1. now rewrite !wdg_on_xhr. }
    rewrite D.
    unfold dispatchEvent. cbn [snd].
    assert (D' : xhr_detail
                   (set_log
                      (log (env (on_xhr i (xhr_set_responseError (Some err)) st2))
                       ++ [mkNotification "suggest.ajax.error" (DXhr failed)])
                      (on_xhr i (xhr_set_responseError (Some err)) st2))
                 = DXhr failed) by exact D.
    rewrite D'. simpl. now rewrite <- app_assoc.
  - simpl. rewrite Hx, Hp, Hh. unfold xhr_onerror.
    rewrite wdg_on_xhr, Hi.
    eexists. split; [reflexivity|].
    rewrite (xhr_detail_on_xhr i _ _ (xhr_done 0 "" x));
      [reflexivity|now rewrite wdg_on_xhr|now apply lookup_on_xhr].
Qed.

End Fetching.

(** On the sample page with its request in flight, an answer that parses
    is handed on as data. *)
Lemma C3_fetch_outcomes_witness :
  let st := searching_page in
  let x := xhr_send (xhr_open "/search?q=a" (xhr_with_handlers blank_xhr)) in
  _xhr (wdg st) = Some 0 /\ xhrs (env st) !! 0 = Some x
  /\ is_Some (pending x) /\ handlers x = true
  /\ exists st',
       step parse (Respond 0 200 "{}") st = Ret tt st'
       /\ log (env st')
          = log (env st)
            ++ [mkNotification "suggest.ajax"
                  (DXhr (xhr_set_responseJSON (JsValue "{}")
                           (xhr_done 200 "{}" x)))].
Proof.
  intros st x.
  assert (Hp : is_Some (pending x)) by (now exists "/search?q=a").
  split; [reflexivity|]. split; [reflexivity|]. split; [exact Hp|].
  split; [reflexivity|].
  exact (proj1 (C3_fetch_outcomes parse st 0 x 200 "{}"
                  eq_refl eq_refl Hp eq_refl) eq_refl "{}" eq_refl).
Defined.

(** C3 as stated fails where the body does not parse: the "error"
    notification does not come instead of the "data received" one, both
    are emitted, the second carrying [false] as the payload. For a status
    other than 200 the "error" notification carries no message. And once
    the widget is detached, the completion handler throws. *)
Lemma C3_counterexample :
  let r := step parse (Respond 0 200 "oops") searching_page in
  let r404 := step parse (Respond 0 404 "") searching_page in
  let gone := run parse [Detach; Respond 0 200 "{}"] searching_page in
  (parse "oops" = inr "SyntaxError: Unexpected token"
   /\ returns r = true
   /\ map name (log (env (state_of r)))
      = ["suggest.filter"; "suggest.ajax.beforeSend";
         "suggest.ajax.error"; "suggest.ajax"]
   /\ (exists x, last (log (env (state_of r)))
                = Some (mkNotification "suggest.ajax" (DXhr x))
                /\ responseJSON x = JsFalse))
  /\ (exists x, last (log (env (state_of r404)))
               = Some (mkNotification "suggest.ajax.error" (DXhr x))
               /\ status x = 404 /\ responseError x = None)
  /\ returns gone = false.
Proof.
  vm_compute. split; [|split]; [|eexists; repeat split|reflexivity].
  repeat split; try reflexivity. eexists. split; reflexivity.
Qed.
Section Debouncing.
Context {json : Type}.
Variable JSON_parse : string -> json + string.
Implicit Types st : @state json.

(** C4 (as amended). On a widget that is attached, has an endpoint and
    whose host cancels neither the filter nor the before-send notification:
    two keystrokes less than a quiet period apart, followed by a quiet
    period, issue one request, for the text of the second keystroke, and
    none when that text is empty; every keystroke aborts the request in
    flight; and whatever happens to the widget, as long as it is not
    attached again, at most one request is in flight. The timer queue is
    taken to be tidy, as it is in every state reached from an empty queue
    ([tidy_run]), and the widget's request object to be the only one that
    can have a request in flight, as it is until the widget is attached
    again ([sole_run]). *)
Theorem C4_debounce st (i : nat) (v1 v2 : string) (d e : nat)
    (ts : list task) :
  ready st -> tidy st -> sole i st ->
  d < AJAX_DEBOUNCE -> AJAX_DEBOUNCE <= e ->
  Forall (fun t => t <> Attach) ts ->
  (exists st',
     run JSON_parse [Typing v1; Elapse d; Typing v2; Elapse e] st = Ret tt st'
     /\ network (env st')
        = network (env st)
          ++ (if Str.truthy v2 then [request_url st v2] else []))
  /\ in_flight (state_of (step JSON_parse (Typing v1) st)) = []
  /\ length (in_flight (state_of (run JSON_parse ts st))) <= 1.
Proof.
  intros Hr Ht Hs Hd He Hts. split; [|split].
  - now apply two_keystrokes.
  - now apply (typing_aborts JSON_parse i).
  - apply (sole_in_flight i). now apply sole_run.
Qed.

End Debouncing.

(** The sample page with an endpoint: "a", then "ab" a tenth of a second
    later, then the quiet period. *)
Lemma C4_debounce_witness :
  let st := remote_page "" in
  (exists st',
     run parse [Typing "a"; Elapse 100; Typing "ab"; Elapse 500] st
     = Ret tt st'
     /\ network (env st') = ["/search?q=ab"])
  /\ in_flight (state_of (step parse (Typing "a") st)) = []
  /\ length
       (in_flight
          (state_of
             (run parse [Typing "a"; Elapse 500; Typing "ab"; Elapse 500;
                         Respond 0 200 "{}"; Detach] st))) <= 1.
Proof.
  intros st.
  assert (Hr : ready st).
  { split; [by_evaluation|]. split; [now exists 0|].
    split; [exists 0; split; [reflexivity|simpl; lia]|].
    split; [reflexivity|]. split; apply not_elem_of_empty. }
  assert (Ht : tidy st).
  { split; [apply NoDup_nil_2|]. split; intros t []. }
  assert (Hs : sole 0 st).
  { split.
    - intros [|j] x Hx Hp; [reflexivity|discriminate].
    - intros k Hk. now injection Hk as <-. }
  assert (Hd : 100 < AJAX_DEBOUNCE) by (unfold AJAX_DEBOUNCE; lia).
  assert (He : AJAX_DEBOUNCE <= 500) by (unfold AJAX_DEBOUNCE; lia).
  assert (Hts : Forall (fun t : task => t <> Attach)
                  [Typing "a"; Elapse 500; Typing "ab"; Elapse 500;
                   Respond 0 200 "{}"; Detach])
    by (repeat constructor; discriminate).
  exact (C4_debounce parse st 0 "a" "ab" 100 500 _ Hr Ht Hs Hd He Hts).
Defined.

(** C4 as stated fails in three ways. Detached while its request is in
    flight and attached again, the widget makes a new request object and
    leaves the old request alone: after the next search two requests are in
    flight. When the second keystroke empties the input, the two keystrokes
    give no request at all; and none either when the host cancels the
    before-send notification. *)
Lemma C4_counterexample :
  let st := remote_page "" in
  let again :=
    run parse [Typing "a"; Elapse 500; Detach; Attach; Typing "b"; Elapse 500]
      st in
  let emptied :=
    run parse [Typing "a"; Elapse 100; Typing ""; Elapse 500] st in
  let canceled :=
    run parse [Typing "a"; Elapse 100; Typing "ab"; Elapse 500]
      (canceling "suggest.ajax.beforeSend" st) in
  (returns again = true
   /\ in_flight (state_of again) = ["/search?q=a"; "/search?q=b"])
  /\ (returns emptied = true /\ network (env (state_of emptied)) = [])
  /\ (returns canceled = true /\ network (env (state_of canceled)) = []).
Proof. vm_compute. repeat split; reflexivity. Qed.
Section Highlighting.
Context {json : Type}.
Implicit Types st : @state json.




End Highlighting.


Section Filtering.
Context {json : Type}.
Implicit Types st : @state json.


End Filtering.



Section Selecting.
Context {json : Type}.
Implicit Types st : @state json.


End Selecting.



Section Navigating.
Context {json : Type}.
Implicit Types st : @state json.







End Navigating.


Section EmptyInput.
Context {json : Type}.
Variable JSON_parse : string -> json + string.
Implicit Types st : @state json.

(** C9. While the input is empty no request is issued: a debounce that
    expires then returns without sending anything, without touching a
    request object and without any notification, "before send" included;
    and however much time passes over an empty input, the timers that run
    leave the network and the notifications as they were. *)
Theorem C9_no_fetch_when_empty st :
  input_value (doc st) = "" ->
  (exists st',
     onAjaxSend st = Ret tt st'
     /\ network (env st') = network (env st)
     /\ log (env st') = log (env st)
     /\ xhrs (env st') = xhrs (env st))
  /\ (forall ms, exists st',
        step JSON_parse (Elapse ms) st = Ret tt st'
        /\ network (env st') = network (env st)
        /\ log (env st') = log (env st)
        /\ xhrs (env st') = xhrs (env st)).
Proof.
  intros H. split.
  - destruct (onAjaxSend_empty st H) as (st' & E & En & _).
    exists st'. now rewrite En.
  - intros ms. simpl.
    destruct (fire_due_empty (length (timers (env st)))
                (set_now (now (env st) + ms) st) H)
      as (st' & E & N & L & X & _).
    exists st'. split; [exact E|]. now rewrite N, L, X.
Qed.

End EmptyInput.

(** The sample page with an endpoint and an empty input: the debounce
    expires without a request. *)
Lemma C9_no_fetch_when_empty_witness :
  let st := page_with [("ajax", "/search?q={{value}}")] fruit "" in
  input_value (doc st) = ""
  /\ exists st',
       onAjaxSend st = Ret tt st'
       /\ network (env st') = network (env st)
       /\ log (env st') = log (env st)
       /\ xhrs (env st') = xhrs (env st).
Proof.
  intros st. split; [reflexivity|].
  exact (proj1 (C9_no_fetch_when_empty parse st eq_refl)).
Defined.

End Contract.
